(** * EnvGuard for Next.js: the validation-and-caching lifecycle of
    [src/index.ts], embedded and verified.

    JavaScript strings are sequences of UTF-16 code units, objects used as
    dictionaries are finite maps from strings, and the module-level state
    ([runtimeEnv], [isInitialized]) lives in an explicit world together with
    the object store, so that aliasing between the cache and the values
    handed to callers is visible. *)

From Stdlib Require Import ZArith NArith Ascii String List Bool Lia.
From stdpp Require Import base option list gmap fin_maps.

Set Default Proof Using "Type".
Local Open Scope N_scope.

(** ** JavaScript strings *)

Module JsString.

(** A string is its list of UTF-16 code units. *)
Abbreviation jsstring := (list N).

(** The code units of an ASCII literal. *)
Fixpoint js (s : string) : jsstring :=
  match s with
  | EmptyString => []
  | String c rest => N_of_ascii c :: js rest
  end.

Arguments js : simpl never.

Definition c_lf : N := 10.
Definition c_cr : N := 13.
Definition c_hash : N := 35.
Definition c_eq : N := 61.
Definition c_dquote : N := 34.
Definition c_squote : N := 39.
Definition c_dot : N := 46.

(** [WhiteSpace] and [LineTerminator] of ECMAScript: what
    [String.prototype.trim] removes at both ends. *)
Definition is_trim_space (c : N) : bool :=
  (c =? 9) || (c =? 10) || (c =? 11) || (c =? 12) || (c =? 13) || (c =? 32)
  || (c =? 160) || (c =? 5760)
  || ((8192 <=? c) && (c <=? 8202))
  || (c =? 8232) || (c =? 8233) || (c =? 8239) || (c =? 8287)
  || (c =? 12288) || (c =? 65279).

(** The characters that [.] of a regular expression (without the [s] flag)
    does not match. *)
Definition is_line_terminator (c : N) : bool :=
  (c =? 10) || (c =? 13) || (c =? 8232) || (c =? 8233).

Fixpoint trimStart (s : jsstring) : jsstring :=
  match s with
  | [] => []
  | c :: rest => if is_trim_space c then trimStart rest else s
  end.

Definition trimEnd (s : jsstring) : jsstring := rev (trimStart (rev s)).

Definition trim (s : jsstring) : jsstring := trimEnd (trimStart s).

(** [s.startsWith(p)] *)
Fixpoint startsWith (p s : jsstring) : bool :=
  match p, s with
  | [], _ => true
  | _ :: _, [] => false
  | a :: p', b :: s' => (a =? b) && startsWith p' s'
  end.

(** [s.endsWith(p)] *)
Definition endsWith (p s : jsstring) : bool := startsWith (rev p) (rev s).

(** [s.slice(from, to)], negative indices counting from the end. *)
Definition slice (s : jsstring) (from to : Z) : jsstring :=
  let len := Z.of_nat (length s) in
  let clamp (i : Z) := if (i <? 0)%Z then Z.max (len + i) 0 else Z.min i len in
  let a := clamp from in
  let b := clamp to in
  take (Z.to_nat (b - a)) (drop (Z.to_nat a) s).

(** [s.split(sep)] for a one-character separator: always at least one
    piece. *)
Fixpoint split_on (sep : N) (s : jsstring) : list jsstring :=
  match s with
  | [] => [[]]
  | c :: rest =>
      if c =? sep then [] :: split_on sep rest
      else match split_on sep rest with
           | [] => [[c]]
           | piece :: pieces => (c :: piece) :: pieces
           end
  end.

(** [pieces.join(sep)] *)
Fixpoint join (sep : jsstring) (pieces : list jsstring) : jsstring :=
  match pieces with
  | [] => []
  | [p] => p
  | p :: rest => p ++ sep ++ join sep rest
  end.

(** [s.includes(sub)] *)
Fixpoint includes (sub s : jsstring) : bool :=
  startsWith sub s ||
  match s with
  | [] => false
  | _ :: rest => includes sub rest
  end.

(** The decimal digits of [n] put in front of [acc], at most [fuel] of
    them. *)
Fixpoint digits_fuel (fuel : nat) (n : N) (acc : jsstring) : jsstring :=
  match fuel with
  | O => acc
  | S fuel' =>
      let acc' := (48 + n mod 10) :: acc in
      if n <? 10 then acc' else digits_fuel fuel' (n / 10) acc'
  end.

(** The decimal digits of a natural number, most significant first: it has
    no more of them than binary digits. *)
Definition decimal (n : N) : jsstring := digits_fuel (S (N.to_nat (N.log2 n))) n [].

(** [Number.MAX_SAFE_INTEGER + 1]: below it every integer is a number of
    JavaScript, and [String] prints it as its decimal digits (from 1e21 on
    [String] turns to the exponent notation, and above the bound not every
    integer is a number). *)
Definition safe_bound : N := 9007199254740992.

(** A non-negative safe integer, such as an array index. *)
Record safe_integer := {
  value_of : N;
  is_safe : (value_of <? safe_bound) = true
}.

(** [String(i)] of a non-negative safe integer. *)
Definition of_index (i : safe_integer) : jsstring := decimal (value_of i).

End JsString.
Import JsString.

(** ** Objects used as dictionaries *)

(** A [Record<string, string>]: own enumerable string-keyed properties. *)
Abbreviation dict := (gmap jsstring jsstring).

Definition proto_key : jsstring := js "__proto__".

(** [obj[key] = value] on a plain object, for a primitive [value]: the
    inherited [__proto__] setter swallows the assignment and no own property
    is created; every other key becomes (or updates) an own property. *)
Definition set_prop {V : Type} (obj : gmap jsstring V) (key : jsstring) (value : V)
  : gmap jsstring V :=
  if decide (key = proto_key) then obj else <[key := value]> obj.

(** [Object.assign(target, source)] for primitive values: every own property
    of [source] is assigned on [target] with [set_prop]. *)
Definition object_assign {V : Type} (target source : gmap jsstring V) : gmap jsstring V :=
  filter (fun kv => kv.1 <> proto_key) source ∪ target.

(** [{ ...a, ...b }]: own properties of [a], then those of [b] defined over
    them (spread defines properties, it never goes through a setter). *)
Definition spread2 {V : Type} (a b : gmap jsstring V) : gmap jsstring V := b ∪ a.

(** ** The key=value file format: [parseEnvFile], lines 77-100 *)

(** *** Regular expressions, as far as the pattern of line 85 needs them *)

Module Regex.

Inductive atom :=
  | Exactly (c : N)     (* a literal character *)
  | Except (c : N)      (* a negated class of one character *)
  | Dot.                (* any character but a line terminator *)

Inductive piece :=
  | Once (a : atom)
  | Plus (a : atom)     (* one or more, greedy *)
  | Star (a : atom).    (* zero or more, greedy *)

(** A pattern anchored at both ends: its pieces in order, each marked as a
    capture group or not. *)
Abbreviation pattern := (list (bool * piece)).

Definition accepts (a : atom) (c : N) : bool :=
  match a with
  | Exactly d => c =? d
  | Except d => negb (c =? d)
  | Dot => negb (is_line_terminator c)
  end.

(** How many characters at the start of [s] the atom accepts. *)
Fixpoint run (a : atom) (s : jsstring) : nat :=
  match s with
  | c :: rest => if accepts a c then S (run a rest) else 0%nat
  | [] => 0%nat
  end.

(** A greedy quantifier: give the atom [k] characters and match the rest of
    the pattern; on failure give back one character and try again, down to
    [lo] characters. *)
Fixpoint greedy (lo k : nat) (s : jsstring) (rest : jsstring -> option (list jsstring))
  : option (nat * list jsstring) :=
  if (k <? lo)%nat then None
  else match rest (drop k s) with
       | Some groups => Some (k, groups)
       | None => match k with
                 | O => None
                 | S k' => greedy lo k' s rest
                 end
       end.

(** The captured groups of a match of the whole of [s], if there is one. *)
Fixpoint exec (re : pattern) (s : jsstring) : option (list jsstring) :=
  match re with
  | [] => match s with [] => Some [] | _ => None end
  | (grouped, p) :: re' =>
      let consumed :=
        match p with
        | Once a =>
            match s with
            | c :: s' => if accepts a c then (fun groups => (1%nat, groups)) <$> exec re' s'
                         else None
            | [] => None
            end
        | Plus a => greedy 1 (run a s) s (exec re')
        | Star a => greedy 0 (run a s) s (exec re')
        end in
      (fun r => if grouped : bool then take r.1 s :: r.2 else r.2) <$> consumed
  end.

End Regex.

(** The pattern of line 85: one or more characters other than [=] (group
    1), a [=], any run of [.] (group 2). *)
Definition assignment_pattern : Regex.pattern :=
  [ (true, Regex.Plus (Regex.Except c_eq));
    (false, Regex.Once (Regex.Exactly c_eq));
    (true, Regex.Star Regex.Dot) ].

(** [trimmed.match(pattern)], as the pair of its two groups. *)
Definition match_assignment (trimmed : jsstring) : option (jsstring * jsstring) :=
  match Regex.exec assignment_pattern trimmed with
  | Some [g1; g2] => Some (g1, g2)
  | _ => None
  end.

Definition is_quoted (value : jsstring) : bool :=
  (startsWith [c_dquote] value && endsWith [c_dquote] value)
  || (startsWith [c_squote] value && endsWith [c_squote] value).

(** The body of the [forEach] callback: the entry a line contributes. *)
Definition parse_line (line : jsstring) : option (jsstring * jsstring) :=
  let trimmed := trim line in
  if (match trimmed with [] => true | _ => false end) || startsWith [c_hash] trimmed
  then None
  else
    match match_assignment trimmed with
    | Some (g1, g2) =>
        let key := trim g1 in
        let value := trim g2 in
        let value := if is_quoted value then slice value 1 (-1) else value in
        Some (key, value)
    | None => None
    end.

Definition add_line (env : dict) (line : jsstring) : dict :=
  match parse_line line with
  | Some (key, value) => set_prop env key value
  | None => env
  end.

(** [parseEnvFile] once the file's text is read. *)
Definition parseEnvContent (content : jsstring) : dict :=
  foldl add_line ∅ (split_on c_lf content).

Definition lines (ls : list string) : jsstring := join [c_lf] (js <$> ls).

(** ** What the host gives the module: environment, working directory, files *)

Inductive fs_node :=
  | File (content : jsstring)   (* its text, decoded as UTF-8 *)
  | Directory.

Record Host := {
  process_env : dict;                             (* [process.env] *)
  cwd : jsstring;                                 (* [process.cwd()] *)
  fs : jsstring -> option fs_node;                (* what is at a path *)
  path_join : jsstring -> jsstring -> jsstring    (* [path.join] of the platform *)
}.

(** [process.env.NODE_ENV]: a string, or [None] for [undefined]. *)
Definition NODE_ENV (host : Host) : option jsstring := process_env host !! js "NODE_ENV".

(** [process.env.NODE_ENV === s] and [!==]. *)
Definition node_env_is (host : Host) (s : jsstring) : bool :=
  bool_decide (NODE_ENV host = Some s).

(** [process.env.NODE_ENV || 'development']: the undefined and the empty
    string are both falsy. *)
Definition resolve_mode (host : Host) : jsstring :=
  match NODE_ENV host with
  | Some ((_ :: _) as mode) => mode
  | _ => js "development"
  end.

(** ** Errors of the schema library and thrown values *)

Inductive path_seg :=
  | Key (name : jsstring)
  | Index (i : safe_integer).   (* a number: an index into an array *)

Record ZodIssue := {
  code : jsstring;
  path : list path_seg;
  message : jsstring
}.

Record ZodError := { issues : list ZodIssue }.

Inductive exn :=
  | JsError (msg : jsstring)                       (* [new Error(msg)] *)
  | ZodErr (error : ZodError)                      (* [instanceof z.ZodError] *)
  | FsError (errno : jsstring) (at_path : jsstring)
  | Foreign (tag : N).                             (* any other thrown value *)

(** How a call ends: it returns, it throws, or the process exits. *)
Inductive outcome (A : Type) :=
  | Return (a : A)
  | Throw (e : exn)
  | Exit (status : Z).
Arguments Return {A} a.
Arguments Throw {A} e.
Arguments Exit {A} status.

(** What the module does to the outside, in order. *)
Inductive event :=
  | ConsoleLog (msg : jsstring)
  | ConsoleWarn (msg : jsstring)
  | ConsoleError (msg : jsstring)
  | FsExists (p : jsstring)
  | FsRead (p : jsstring)
  | SchemaParse (input : dict)
  | OnErrorCall (error : ZodError).

(** ** Console texts *)

Module Msg.
Definition already_initialized := js "EnvGuard already initialized.".
Definition validated := [0x2705] ++ js " EnvGuard: Validated".
Definition not_initialized := js "EnvGuard not initialized. Call initEnv() first.".
Definition failed := [c_lf; 0x274C] ++ js " EnvGuard: Validation failed" ++ [c_lf].
Definition issue_line (p m : jsstring) := js "  " ++ [0x2022] ++ js " " ++ p ++ js ": " ++ m.
Definition required := [c_lf; 0xD83D; 0xDCDD] ++ js " Required:".
Definition export_hint (key : jsstring) := js "  export " ++ key ++ js "=<value>".
Definition dev_continuing := [c_lf; 0x26A0; 0xFE0F] ++ js " Dev mode: Continuing" ++ [c_lf].
Definition check_files := [c_lf; 0xD83D; 0xDCA1] ++ js " Check your .env files" ++ [c_lf].
Definition client_prefix (key : jsstring) :=
  js "Client env " ++ [c_dquote] ++ key ++ [c_dquote] ++ js " must start with NEXT_PUBLIC_".
End Msg.

(** [String(seg)] of a path segment, and of [issue.path[0]] when the path
    may be empty. *)
Definition seg_to_string (seg : path_seg) : jsstring :=
  match seg with
  | Key name => name
  | Index i => of_index i
  end.

Definition first_seg_to_string (p : list path_seg) : jsstring :=
  match p with
  | [] => js "undefined"
  | seg :: _ => seg_to_string seg
  end.

(** ** The module state and the object store *)

Abbreviation loc := nat.

Section Lifecycle.

(** The values a validated field can hold: decided by the schema, opaque
    here. *)
Context {Val : Type}.

Abbreviation object := (gmap jsstring Val).

Record World := {
  heap : gmap loc object;     (* the objects callers and the cache can reach *)
  runtimeEnv : loc;           (* [let runtimeEnv], a reference *)
  isInitialized : bool;       (* [let isInitialized] *)
  trace : list event          (* console, file-system and callback activity *)
}.

(** Module load: [runtimeEnv = {}], [isInitialized = false]. *)
Definition initial_world : World :=
  {| heap := {[ 0%nat := ∅ ]}; runtimeEnv := 0%nat; isInitialized := false; trace := [] |}.

(** The object a reference points to. *)
Definition deref (w : World) (l : loc) : object := default ∅ (heap w !! l).

(** The cached snapshot. *)
Definition cached (w : World) : object := deref w (runtimeEnv w).

(** A caller changes, in any way, the properties of an object it holds. *)
Definition mutate (l : loc) (f : object -> object) (w : World) : World :=
  {| heap := alter f l (heap w); runtimeEnv := runtimeEnv w;
     isInitialized := isInitialized w; trace := trace w |}.

(** The world after some more outside activity and nothing else. *)
Definition logged (evs : list event) (w : World) : World :=
  {| heap := heap w; runtimeEnv := runtimeEnv w;
     isInitialized := isInitialized w; trace := trace w ++ evs |}.

(** *** State, exceptions and exit in one monad *)

Definition M (A : Type) : Type := World -> outcome A * World.

Definition ret {A} (a : A) : M A := fun w => (Return a, w).

Definition bind {A B} (m : M A) (k : A -> M B) : M B :=
  fun w =>
    match m w with
    | (Return a, w') => k a w'
    | (Throw e, w') => (Throw e, w')
    | (Exit status, w') => (Exit status, w')
    end.

Definition throw {A} (e : exn) : M A := fun w => (Throw e, w).

(** [process.exit(status)] *)
Definition process_exit {A} (status : Z) : M A := fun w => (Exit status, w).

(** [try { body } catch (error) { handler }] *)
Definition try_catch {A} (body : M A) (handler : exn -> M A) : M A :=
  fun w =>
    match body w with
    | (Throw e, w') => handler e w'
    | r => r
    end.

Definition get_world : M World := fun w => (Return w, w).

Definition emit (ev : event) : M unit :=
  fun w => (Return tt, {| heap := heap w; runtimeEnv := runtimeEnv w;
                          isInitialized := isInitialized w; trace := trace w ++ [ev] |}).

(** A new object with the given own properties. *)
Definition alloc (o : object) : M loc :=
  fun w => let l := fresh (dom (heap w)) in
           (Return l, {| heap := <[l := o]> (heap w); runtimeEnv := runtimeEnv w;
                         isInitialized := isInitialized w; trace := trace w |}).

Definition set_runtimeEnv (l : loc) : M unit :=
  fun w => (Return tt, {| heap := heap w; runtimeEnv := l;
                          isInitialized := isInitialized w; trace := trace w |}).

Definition set_isInitialized (b : bool) : M unit :=
  fun w => (Return tt, {| heap := heap w; runtimeEnv := runtimeEnv w;
                          isInitialized := b; trace := trace w |}).

Notation "x <- m ;; k" := (bind m (fun x => k))
  (at level 100, m at next level, right associativity).
Notation "m ;;; k" := (bind m (fun _ => k))
  (at level 100, right associativity).

(** A computation that leaves the heap and the module variables alone,
    whatever its outcome. *)
Definition quiet {A} (m : M A) : Prop :=
  forall w, exists evs, (m w).2 = logged evs w.

Fixpoint for_each {A} (f : A -> M unit) (l : list A) : M unit :=
  match l with
  | [] => ret tt
  | x :: rest => f x ;;; for_each f rest
  end.

(** *** The schema library, as far as the module uses it *)

(** [schema.parse(input)] builds a new object or throws. *)
Inductive parse_result :=
  | ParseOk (validated : object)
  | ParseThrow (e : exn).

Record ZodObject := { parse : dict -> parse_result }.

Record EnvGuardConfig := {
  schema : ZodObject;
  envPath : option jsstring;
  allowMissingInDev : option bool;
  (* the handler returns, throws, or ends the process *)
  onError : option (ZodError -> outcome unit)
}.

(** *** File access *)

Definition existsSync (host : Host) (p : jsstring) : M bool :=
  emit (FsExists p) ;;; ret (bool_decide (is_Some (fs host p))).

Definition readFileSync (host : Host) (p : jsstring) : M jsstring :=
  emit (FsRead p) ;;;
  match fs host p with
  | Some (File content) => ret content
  | Some Directory => throw (FsError (js "EISDIR") p)
  | None => throw (FsError (js "ENOENT") p)
  end.

(** Lines 77-100. *)
Definition parseEnvFile (host : Host) (filePath : jsstring) : M dict :=
  content <- readFileSync host filePath ;;
  ret (parseEnvContent content).

(** [customPath && fs.existsSync(customPath)]: an undefined or empty path is
    falsy and the file system is not asked. *)
Definition custom_path_exists (host : Host) (customPath : option jsstring) : M bool :=
  match customPath with
  | Some ((_ :: _) as p) => existsSync host p
  | _ => ret false
  end.

Definition envFiles (mode : jsstring) : list jsstring :=
  [ js ".env"; js ".env." ++ mode; js ".env.local"; js ".env." ++ mode ++ js ".local" ].

(** The body of the [for] loop of lines 67-72. *)
Definition load_layer (host : Host) (rootDir : jsstring) (env : dict) (file : jsstring)
  : M dict :=
  let filePath := path_join host rootDir file in
  present <- existsSync host filePath ;;
  if present : bool then
    parsed <- parseEnvFile host filePath ;;
    ret (object_assign env parsed)
  else ret env.

Fixpoint load_layers (host : Host) (rootDir : jsstring) (env : dict) (files : list jsstring)
  : M dict :=
  match files with
  | [] => ret env
  | file :: rest =>
      env' <- load_layer host rootDir env file ;;
      load_layers host rootDir env' rest
  end.

(** Lines 55-75. *)
Definition loadEnvVars (host : Host) (customPath : option jsstring) : M dict :=
  let env : dict := ∅ in
  hit <- custom_path_exists host customPath ;;
  match hit, customPath with
  | true, Some p =>
      parsed <- parseEnvFile host p ;;
      ret (object_assign env parsed)
  | _, _ =>
      let mode := resolve_mode host in
      let rootDir := cwd host in
      load_layers host rootDir env (envFiles mode)
  end.

(** *** The diagnostics reporter, lines 102-127 *)

Definition report_issue (issue : ZodIssue) : M unit :=
  let p := join [c_dot] (seg_to_string <$> path issue) in
  emit (ConsoleError (Msg.issue_line p (message issue))).

Definition is_invalid_type (issue : ZodIssue) : bool :=
  bool_decide (code issue = js "invalid_type").

Definition report_hint (issue : ZodIssue) : M unit :=
  let key := first_seg_to_string (path issue) in
  emit (ConsoleError (Msg.export_hint key)).

(** The result type is [never]: the function has no value to return. *)
Definition handleValidationError (host : Host) (error : ZodError)
    (allowMissingInDev : option bool) : M Empty_set :=
  let isDev := node_env_is host (js "development") in
  emit (ConsoleError Msg.failed) ;;;
  for_each report_issue (issues error) ;;;
  emit (ConsoleError Msg.required) ;;;
  for_each report_hint (List.filter is_invalid_type (issues error)) ;;;
  if bool_decide (allowMissingInDev = Some true) && isDev then
    emit (ConsoleWarn Msg.dev_continuing) ;;;
    process_exit 0
  else
    emit (ConsoleError Msg.check_files) ;;;
    process_exit 1.

(** Everything the reporter prints before it decides how to exit. *)
Definition report_lines (error : ZodError) : list event :=
  [ConsoleError Msg.failed]
  ++ ((fun issue =>
         ConsoleError (Msg.issue_line (join [c_dot] (seg_to_string <$> path issue))
                                      (message issue))) <$> issues error)
  ++ [ConsoleError Msg.required]
  ++ ((fun issue => ConsoleError (Msg.export_hint (first_seg_to_string (path issue))))
        <$> List.filter is_invalid_type (issues error)).

(** Whether the reporter exits with status 0. *)
Definition tolerated (host : Host) (allow : option bool) : bool :=
  bool_decide (allow = Some true) && bool_decide (NODE_ENV host = Some (js "development")).

(** *** The runtime cache, lines 15-53 and 129-134 *)

(** [config.schema.parse(mergedEnv)] *)
Definition schema_parse (s : ZodObject) (input : dict) : M loc :=
  emit (SchemaParse input) ;;;
  match parse s input with
  | ParseOk validated => alloc validated
  | ParseThrow e => throw e
  end.

(** [config.onError(error)] *)
Definition call_onError (handler : ZodError -> outcome unit) (error : ZodError) : M unit :=
  emit (OnErrorCall error) ;;;
  match handler error with
  | Return _ => ret tt
  | Throw e => throw e
  | Exit status => process_exit status
  end.

Definition initEnv (host : Host) (config : EnvGuardConfig) : M loc :=
  w <- get_world ;;
  if isInitialized w && negb (node_env_is host (js "test")) then
    emit (ConsoleWarn Msg.already_initialized) ;;;
    ret (runtimeEnv w)
  else
    envVars <- loadEnvVars host (envPath config) ;;
    let mergedEnv := spread2 envVars (process_env host) in
    try_catch
      (validated <- schema_parse (schema config) mergedEnv ;;
       set_runtimeEnv validated ;;;
       set_isInitialized true ;;;
       (if negb (node_env_is host (js "production"))
        then emit (ConsoleLog Msg.validated) else ret tt) ;;;
       ret validated)
      (fun error =>
         match error with
         | ZodErr zerr =>
             match onError config with
             | Some handler => call_onError handler zerr
             | None =>
                 never <- handleValidationError host zerr (allowMissingInDev config) ;;
                 match never : Empty_set with end
             end
         | _ => ret tt
         end ;;;
         throw error).

Definition getEnv : M loc :=
  w <- get_world ;;
  if negb (isInitialized w) then throw (JsError Msg.not_initialized)
  else alloc (cached w).

Definition createEnv (host : Host) (config : EnvGuardConfig) : M loc :=
  initEnv host config ;;;
  getEnv.

(** The heap and the two module variables are the same in both worlds. *)
Definition same_cache (w w' : World) : Prop :=
  heap w' = heap w /\ runtimeEnv w' = runtimeEnv w /\ isInitialized w' = isInitialized w.

(** An event other than a call of the schema's [parse]. *)
Definition not_a_parse (ev : event) : Prop :=
  match ev with SchemaParse _ => False | _ => True end.


End Lifecycle.

Arguments World : clear implicits.
Arguments M : clear implicits.
Arguments ZodObject : clear implicits.
Arguments EnvGuardConfig : clear implicits.
Arguments parse_result : clear implicits.

(** ** The client/server guard, lines 136-147 *)

Section Guard.

(** A raw shape: the declared fields in the order [Object.keys] lists them.
    What a field schema is, and what [z.object] builds, belongs to the
    schema library. *)
Variables (Field Schema : Type) (z_object : list (jsstring * Field) -> Schema).

Definition NEXT_PUBLIC_ : jsstring := js "NEXT_PUBLIC_".

Definition createServerEnv (shape : list (jsstring * Field)) : outcome Schema :=
  Return (z_object shape).

(** The [forEach] over the keys: the first callback that throws ends it. *)
Fixpoint check_keys (keys : list jsstring) : option exn :=
  match keys with
  | [] => None
  | key :: rest =>
      if negb (startsWith NEXT_PUBLIC_ key)
      then Some (JsError (Msg.client_prefix key))
      else check_keys rest
  end.

Definition createClientEnv (shape : list (jsstring * Field)) : outcome Schema :=
  match check_keys (shape.*1) with
  | Some e => Throw e
  | None => Return (z_object shape)
  end.

End Guard.

(** ** The file format and the file layers, as the specification words them *)

Module FormatSpec.

(** Position of the first occurrence of a character. *)
Fixpoint index_of (c : N) (s : jsstring) : option nat :=
  match s with
  | [] => None
  | d :: rest => if d =? c then Some 0%nat else S <$> index_of c rest
  end.

(** For a line that is not blank, whose first non-whitespace character is
    not [#] and that holds a [=]: what stands before the first [=] and what
    stands after it. *)
Definition halves (line : jsstring) : option (jsstring * jsstring) :=
  match trim line with
  | [] => None
  | (c :: _) as trimmed =>
      if c =? c_hash then None
      else (fun i => (take i trimmed, drop (S i) trimmed)) <$> index_of c_eq trimmed
  end.

(** Wrapped in a pair of the quote character [q]. *)
Definition wrapped_in (q : N) (value : jsstring) : bool :=
  match value with
  | first :: ((_ :: _) as rest) => (first =? q) && bool_decide (last rest = Some q)
  | _ => false
  end.

(** One layer of quoting removed. *)
Definition unquote (value : jsstring) : jsstring :=
  if wrapped_in c_dquote value || wrapped_in c_squote value
  then removelast (tail value) else value.

(** The entry of a line: trimmed key, trimmed and unquoted value. *)
Definition entry (line : jsstring) : option (jsstring * jsstring) :=
  (fun kv => (trim kv.1, unquote (trim kv.2))) <$> halves line.

(** The entries of the lines, a later one replacing an earlier one with the
    same key. *)
Definition parse_with (entry_of : jsstring -> option (jsstring * jsstring))
    (content : jsstring) : dict :=
  list_to_map (rev (omap entry_of (split_on c_lf content))).

(** The format as stated. *)
Definition parse : jsstring -> dict := parse_with entry.

(** The format with one more kind of line that yields no entry: a line whose
    first non-whitespace character is [=], which has no key. *)
Definition keyed_entry (line : jsstring) : option (jsstring * jsstring) :=
  match entry line with
  | Some ([], _) => None
  | e => e
  end.

Definition keyed_parse : jsstring -> dict := parse_with keyed_entry.

(** A line is ordinary unless, with a key before its first [=], it has a
    line terminator other than the line feed after that [=], a value that is
    one lone quote character, or the key [__proto__]. Nothing is promised on
    the lines that are not ordinary. *)
Definition ordinary (line : jsstring) : bool :=
  match halves line with
  | None | Some ([], _) => true
  | Some (before, after) =>
      forallb (fun c => negb (is_line_terminator c)) after
      && negb (bool_decide (trim after = [c_dquote]))
      && negb (bool_decide (trim after = [c_squote]))
      && negb (bool_decide (trim before = proto_key))
  end.

End FormatSpec.

Module LoaderSpec.

(** What one candidate file contributes: its parsed contents when it
    exists, nothing otherwise. *)
Definition layer (host : Host) (file : jsstring) : dict :=
  match fs host (path_join host (cwd host) file) with
  | Some (File content) => parseEnvContent content
  | _ => ∅
  end.

(** The four layers merged; in a union the left operand wins, so the later
    file stands to the left. *)
Definition layered (host : Host) (mode : jsstring) : dict :=
  layer host (js ".env." ++ mode ++ js ".local")
  ∪ (layer host (js ".env.local")
  ∪ (layer host (js ".env." ++ mode)
  ∪ layer host (js ".env"))).

(** The explicit file alone when it exists, the layers otherwise. *)
Definition load (mode : jsstring) (host : Host) (customPath : option jsstring) : dict :=
  match customPath with
  | Some p =>
      match fs host p with
      | Some (File content) => parseEnvContent content
      | _ => layered host mode
      end
  | None => layered host mode
  end.

(** The mode as stated: [NODE_ENV], or development when it is unset. *)
Definition stated_mode (host : Host) : jsstring := default (js "development") (NODE_ENV host).

(** The mode as amended: development also when [NODE_ENV] is the empty
    string. *)
Definition mode (host : Host) : jsstring :=
  let value := default [] (NODE_ENV host) in
  if decide (value = []) then js "development" else value.

(** The paths the loader looks at: the explicit one alone when something is
    there, the four candidates otherwise. *)
Definition consulted (host : Host) (customPath : option jsstring) (mode : jsstring)
  : list jsstring :=
  let candidates := path_join host (cwd host) <$> envFiles mode in
  match customPath with
  | Some p => match fs host p with Some _ => [p] | None => candidates end
  | None => candidates
  end.

(** No directory stands where a file is looked for. *)
Definition only_files (host : Host) (customPath : option jsstring) (mode : jsstring) : Prop :=
  forall p, p ∈ consulted host customPath mode -> fs host p <> Some Directory.

End LoaderSpec.

(** ** Concrete hosts, schemas and configs *)

Module Demo.

(** [path.join] on a normalised directory and a plain file name. *)
Definition posix_join (dir file : jsstring) : jsstring := dir ++ js "/" ++ file.

Fixpoint lookup_file (files : list (string * jsstring)) (p : jsstring) : option fs_node :=
  match files with
  | [] => None
  | (name, text) :: rest =>
      if decide (p = js name) then Some (File text) else lookup_file rest p
  end.

Definition env_of (vars : list (string * string)) : dict :=
  list_to_map ((fun kv => (js kv.1, js kv.2)) <$> vars).

(** A host with the given environment variables and text files, run from
    [/app]. *)
Definition host (vars : list (string * string)) (files : list (string * jsstring)) : Host :=
  {| process_env := env_of vars; cwd := js "/app";
     fs := lookup_file files; path_join := posix_join |}.

(** A schema of string fields that are all required: the declared fields are
    copied to a new object, and each missing one is an issue. *)
Definition missing (field : jsstring) : ZodIssue :=
  {| code := js "invalid_type"; path := [Key field]; message := js "Required" |}.

Definition required (fields : list string) : ZodObject jsstring :=
  {| parse := fun input =>
       match List.filter (fun f => bool_decide (input !! js f = None)) fields with
       | [] => ParseOk (list_to_map (omap (fun f => (fun v => (js f, v)) <$> input !! js f) fields))
       | absent => ParseThrow (ZodErr {| issues := (fun f => missing (js f)) <$> absent |})
       end |}.

Definition config (s : ZodObject jsstring) : EnvGuardConfig jsstring :=
  {| schema := s; envPath := None; allowMissingInDev := None; onError := None |}.

Definition config_with_handler (s : ZodObject jsstring) : EnvGuardConfig jsstring :=
  {| schema := s; envPath := None; allowMissingInDev := None;
     onError := Some (fun _ => Return tt) |}.

End Demo.

(** ** What the further properties speak of *)

(** An entry as the parser stores them: the key is not empty, has no
    whitespace around it, holds no [=], does not start with [#] and is not
    [__proto__]; the value holds no line terminator. *)
Definition stored_entry (key value : jsstring) : Prop :=
  key <> []
  /\ trim key = key
  /\ (c_eq ∉ key)
  /\ head key <> Some c_hash
  /\ key <> proto_key
  /\ Forall (fun c => is_line_terminator c = false) value.

(** One thing a program can do with the module: call one of its three
    operations, with any host and config and whatever the outcome, or change
    an object it holds. *)
Inductive step {Val : Type} (w : World Val) : World Val -> Prop :=
  | step_initEnv host config : step w (initEnv host config w).2
  | step_getEnv : step w (getEnv w).2
  | step_createEnv host config : step w (createEnv host config w).2
  | step_mutate l f : step w (mutate l f w).




(** What looking for one candidate file leaves in the trace: the question,
    and the read when the file is there. *)
Definition probe (host : Host) (file : jsstring) : list event :=
  let filePath := path_join host (cwd host) file in
  FsExists filePath :: match fs host filePath with Some _ => [FsRead filePath] | None => [] end.

(** ** The build-tool hook: [withEnvGuard] *)

Module Plugin.
Section Plugin.

(** The values of the bundler's configuration, of its context, and of the
    settings of a Next.js configuration, are those of the host framework. *)
Variables (Setting WebpackConfig Context : Type).

(** The [webpack] property of a configuration, when it has one: a function,
    or anything else. *)
Inductive webpack_prop :=
  | WebpackFunction (f : WebpackConfig -> Context -> WebpackConfig)
  | WebpackOther (v : Setting).

Record NextConfig := {
  webpack : option webpack_prop;
  env : option dict;
  settings : gmap jsstring Setting      (* every other own property *)
}.

Record EnvGuardPluginOptions := {
  schemaPath : option jsstring;
  debug : option bool
}.

Definition marker : jsstring := js "__ENVGUARD_RUNTIME__".

(** The method [webpack(config, context)] of the returned object. *)
Definition wrapped_webpack (nextConfig : NextConfig)
    (config : WebpackConfig) (context : Context) : WebpackConfig :=
  match webpack nextConfig with
  | Some (WebpackFunction f) => f config context
  | _ => config
  end.

(** Both parameters default to the empty object when not given. *)
Definition withEnvGuard (nextConfig : option NextConfig)
    (options : option EnvGuardPluginOptions) : NextConfig :=
  let nextConfig := default {| webpack := None; env := None; settings := ∅ |} nextConfig in
  {| webpack := Some (WebpackFunction (wrapped_webpack nextConfig));
     env := Some (<[marker := js "true"]> (default ∅ (env nextConfig)));
     settings := settings nextConfig |}.

(** What the bundler gets from a configuration: its [webpack] function
    applied, when it is one. *)
Definition run_webpack (nextConfig : NextConfig)
    (config : WebpackConfig) (context : Context) : option WebpackConfig :=
  match webpack nextConfig with
  | Some (WebpackFunction f) => Some (f config context)
  | _ => None
  end.

End Plugin.
End Plugin.

(** ** More concrete hosts, schemas and configs *)

Module Demo2.

(** The host [h] with a directory at [dir]. *)
Definition with_directory (dir : string) (h : Host) : Host :=
  {| process_env := process_env h; cwd := cwd h;
     fs := fun p => if decide (p = js dir) then Some Directory else fs h p;
     path_join := path_join h |}.

(** A schema whose [parse] throws something that is not a [ZodError]. *)
Definition broken : ZodObject jsstring := {| parse := fun _ => ParseThrow (Foreign 7) |}.

Definition config_at (p : string) (s : ZodObject jsstring) : EnvGuardConfig jsstring :=
  {| schema := s; envPath := Some (js p); allowMissingInDev := None;
     onError := Some (fun _ => Return tt) |}.



End Demo2.

(** * Properties *)

(** ** Strings *)

Example trim_demo : trim (js "  A = b  ") = js "A = b".
Proof. reflexivity. Qed.
Example slice_demo : slice (js "'abc'") 1 (-1) = js "abc".
Proof. reflexivity. Qed.
Example slice_one : slice (js "'") 1 (-1) = [].
Proof. reflexivity. Qed.
Example split_demo :
  split_on c_lf (js "a" ++ [c_lf] ++ js "b" ++ [c_lf]) = [js "a"; js "b"; []].
Proof. reflexivity. Qed.
Example of_index_demo :
  of_index {| value_of := 1203; is_safe := eq_refl |} = js "1203"
  /\ of_index {| value_of := 0; is_safe := eq_refl |} = js "0"
  /\ of_index {| value_of := 9007199254740991; is_safe := eq_refl |} = js "9007199254740991".
Proof. repeat split; reflexivity. Qed.

Example match_assignment_demo :
  match_assignment (js "A=b=c") = Some (js "A", js "b=c")
  /\ match_assignment (js "A=") = Some (js "A", [])
  /\ match_assignment (js "=foo") = None
  /\ match_assignment (js "NOEQUALS") = None
  /\ match_assignment (js "A=b" ++ [c_cr] ++ js "c") = None
  /\ match_assignment (js "A" ++ [c_cr] ++ js "B=c") = Some (js "A" ++ [c_cr] ++ js "B", js "c").
Proof. repeat split; reflexivity. Qed.

(** What the code does with the lines that are not ordinary: nothing for a
    carriage return inside the value, the empty value for a lone quote,
    nothing for the key [__proto__]. *)
Example parse_line_not_ordinary :
  parse_line (js "A=b" ++ [c_cr] ++ js "c") = None
  /\ parse_line (js "A=" ++ [c_dquote]) = Some (js "A", [])
  /\ add_line ∅ (js "__proto__=x") = ∅
  /\ FormatSpec.ordinary (js "A=b" ++ [c_cr] ++ js "c") = false
  /\ FormatSpec.ordinary (js "A=" ++ [c_dquote]) = false
  /\ FormatSpec.ordinary (js "__proto__=x") = false
  /\ FormatSpec.ordinary (js "A=b" ++ [c_cr]) = true.
Proof. repeat split; vm_compute; reflexivity. Qed.

Example parse_demo :
  parseEnvContent (lines ["# comment"; ""; "KEY=x"; "NOEQUALS"; " B = 'a' "; "KEY=y=z"]%string)
  = <[js "KEY" := js "y=z"]> (<[js "B" := js "a"]> ∅).
Proof. vm_compute. reflexivity. Qed.


Lemma startsWith_prefix (p s : jsstring) :
  startsWith p s = true <-> exists rest, s = p ++ rest.
Proof.
  revert s. induction p as [|a p IH]; intros s; simpl.
  - split; [intros _; by exists s | done].
  - destruct s as [|b s].
    + split; [done | intros [rest Hr]; discriminate].
    + rewrite andb_true_iff, N.eqb_eq, IH. split.
      * intros [-> [rest ->]]. by exists rest.
      * intros [rest Hr]. injection Hr as -> ->. eauto.
Qed.

Lemma startsWith_app (p rest : jsstring) : startsWith p (p ++ rest) = true.
Proof. apply startsWith_prefix. by exists rest. Qed.

Lemma includes_app (sub before after : jsstring) :
  includes sub (before ++ sub ++ after) = true.
Proof.
  induction before as [|c before IH]; simpl.
  - pose proof (startsWith_app sub after) as H.
    destruct (sub ++ after); simpl; by rewrite H.
  - rewrite IH. apply orb_true_r.
Qed.


Lemma trimStart_head (s : jsstring) c rest :
  trimStart s = c :: rest -> is_trim_space c = false.
Proof.
  induction s as [|d s IH]; cbn [trimStart]; [done|].
  destruct (is_trim_space d) eqn:E; [exact IH|]. by intros [= <- _].
Qed.

Lemma trimStart_nonspace c (s : jsstring) :
  is_trim_space c = false -> trimStart (c :: s) = c :: s.
Proof. intros H. cbn [trimStart]. by rewrite H. Qed.

Lemma trimStart_snoc (s : jsstring) c :
  is_trim_space c = false -> exists kept, trimStart (s ++ [c]) = kept ++ [c].
Proof.
  intros H. induction s as [|d s IH]; cbn [app trimStart].
  - rewrite H. by exists [].
  - destruct (is_trim_space d); [exact IH|]. by exists (d :: s).
Qed.

Lemma trimEnd_cons c (s : jsstring) :
  is_trim_space c = false -> exists kept, trimEnd (c :: s) = c :: kept.
Proof.
  intros H. unfold trimEnd. cbn [rev].
  destruct (trimStart_snoc (rev s) c H) as [kept ->].
  rewrite rev_app_distr. by exists (rev kept).
Qed.

Lemma trim_cons c (s : jsstring) :
  is_trim_space c = false -> exists kept, trim (c :: s) = c :: kept.
Proof. intros H. unfold trim. rewrite trimStart_nonspace by done. by apply trimEnd_cons. Qed.

Lemma trim_head (s : jsstring) c rest :
  trim s = c :: rest -> is_trim_space c = false.
Proof.
  unfold trim. destruct (trimStart s) as [|d u] eqn:E; [done|].
  pose proof (trimStart_head _ _ _ E) as Hd.
  destruct (trimEnd_cons d u Hd) as [kept ->]. by intros [= <- _].
Qed.

Lemma endsWith_last q (s : jsstring) :
  endsWith [q] s = bool_decide (last s = Some q).
Proof.
  unfold endsWith. destruct s as [|c s _] using rev_ind; [done|].
  rewrite rev_unit, last_snoc. cbn [rev app startsWith].
  rewrite andb_true_r. destruct (N.eqb_spec q c) as [->|Hne].
  - by rewrite bool_decide_eq_true_2.
  - rewrite bool_decide_eq_false_2; [done|]. intros [= ->]. done.
Qed.

Lemma slice_inner (s : jsstring) : slice s 1 (-1) = removelast (tail s).
Proof.
  unfold slice. destruct s as [|c s]; [done|].
  cbn [tail length]. rewrite removelast_firstn_len.
  replace (Z.to_nat _) with (Nat.pred (length s)); [|cbn; lia].
  replace (Z.to_nat _) with 1%nat; [done|cbn; lia].
Qed.

(** ** The guard *)

Section GuardFacts.
Context {Field Schema : Type} (z_object : list (jsstring * Field) -> Schema).

Lemma check_keys_None (keys : list jsstring) :
  check_keys keys = None <-> Forall (fun key => exists rest, key = NEXT_PUBLIC_ ++ rest) keys.
Proof.
  induction keys as [|key keys IH]; cbn [check_keys].
  - split; [constructor | done].
  - rewrite Forall_cons, <- IH, <- startsWith_prefix.
    destruct (startsWith NEXT_PUBLIC_ key); cbn [negb].
    + split; [by split | by intros [_ H]].
    + split; [done | by intros [[=] _]].
Qed.

Lemma check_keys_Some (keys : list jsstring) (e : exn) :
  check_keys keys = Some e ->
  exists before key after,
    keys = before ++ key :: after
    /\ Forall (fun k => exists rest, k = NEXT_PUBLIC_ ++ rest) before
    /\ ~ (exists rest, key = NEXT_PUBLIC_ ++ rest)
    /\ e = JsError (Msg.client_prefix key).
Proof.
  induction keys as [|key keys IH]; cbn [check_keys]; [done|].
  destruct (startsWith NEXT_PUBLIC_ key) eqn:E; cbn [negb].
  - intros H. destruct (IH H) as (before & k & after & -> & Hb & Hk & ->).
    exists (key :: before), k, after. split_and!; try done.
    constructor; [by apply startsWith_prefix | done].
  - intros [= <-]. exists [], key, keys. split_and!; try done.
    rewrite <- startsWith_prefix, E. done.
Qed.

(** C9. [createServerEnv] builds the schema of any shape. [createClientEnv]
    builds it exactly when every declared field name starts with
    [NEXT_PUBLIC_]; otherwise it throws, and no schema is built, an error
    whose message names the first field, in key order, that lacks the
    prefix. *)
Theorem createClientEnv_checks_prefix (shape : list (jsstring * Field)) :
  createServerEnv Field Schema z_object shape = Return (z_object shape)
  /\ (Forall (fun key => exists rest, key = NEXT_PUBLIC_ ++ rest) (shape.*1) ->
      createClientEnv Field Schema z_object shape = Return (z_object shape))
  /\ (~ Forall (fun key => exists rest, key = NEXT_PUBLIC_ ++ rest) (shape.*1) ->
      exists before key after,
        shape.*1 = before ++ key :: after
        /\ Forall (fun k => exists rest, k = NEXT_PUBLIC_ ++ rest) before
        /\ ~ (exists rest, key = NEXT_PUBLIC_ ++ rest)
        /\ createClientEnv Field Schema z_object shape
           = Throw (JsError (Msg.client_prefix key))
        /\ includes key (Msg.client_prefix key) = true).
Proof.
  split; [done|]. unfold createClientEnv. split.
  - intros H. apply check_keys_None in H. by rewrite H.
  - intros H. destruct (check_keys (shape.*1)) as [e|] eqn:E.
    + destruct (check_keys_Some _ _ E) as (before & key & after & Hs & Hb & Hk & ->).
      exists before, key, after. split_and!; try done.
      unfold Msg.client_prefix. rewrite (app_assoc (js "Client env ")).
      apply includes_app.
    + apply check_keys_None in E. done.
Qed.

End GuardFacts.

Lemma createClientEnv_checks_prefix_witness :
  let ok := [(js "NEXT_PUBLIC_FOO", tt)] in
  let bad := [(js "NEXT_PUBLIC_FOO", tt); (js "SECRET", tt); (js "OTHER", tt)] in
  createClientEnv unit _ id ok = Return ok
  /\ exists before key after,
       bad.*1 = before ++ key :: after
       /\ Forall (fun k => exists rest, k = NEXT_PUBLIC_ ++ rest) before
       /\ ~ (exists rest, key = NEXT_PUBLIC_ ++ rest)
       /\ createClientEnv unit _ id bad = Throw (JsError (Msg.client_prefix key))
       /\ includes key (Msg.client_prefix key) = true.
Proof.
  intros ok bad. split.
  - apply (createClientEnv_checks_prefix id ok).
    repeat constructor. by exists (js "FOO").
  - apply (createClientEnv_checks_prefix id bad).
    intros HF. apply Forall_cons in HF as [_ HF]. apply Forall_cons in HF as [[rest Hr] _].
    discriminate.
Defined.

(** ** The world: what a call may touch *)

Section LifecycleFacts.
Context {Val : Type}.
Implicit Types (w : World Val) (host : Host) (config : EnvGuardConfig Val).

Lemma logged_nil w : logged [] w = w.
Proof. destruct w. unfold logged. simpl. by rewrite app_nil_r. Qed.

Lemma logged_logged evs1 evs2 w : logged evs2 (logged evs1 w) = logged (evs1 ++ evs2) w.
Proof. unfold logged. simpl. by rewrite app_assoc. Qed.

Lemma emit_logged ev w : emit ev w = (Return tt, logged [ev] w).
Proof. reflexivity. Qed.

Lemma quiet_ret {A} (a : A) : quiet (Val:=Val) (ret a).
Proof. intros w. exists []. by rewrite logged_nil. Qed.

Lemma quiet_throw {A} e : quiet (@throw Val A e).
Proof. intros w. exists []. by rewrite logged_nil. Qed.

Lemma quiet_exit {A} status : quiet (@process_exit Val A status).
Proof. intros w. exists []. by rewrite logged_nil. Qed.

Lemma quiet_emit ev : quiet (Val:=Val) (emit ev).
Proof. intros w. by exists [ev]. Qed.

Lemma quiet_bind {A B} (m : M Val A) (k : A -> M Val B) :
  quiet m -> (forall a, quiet (k a)) -> quiet (bind m k).
Proof.
  intros Hm Hk w. unfold bind. destruct (Hm w) as [evs1 H1].
  destruct (m w) as [[a|e|st] w1]; simpl in *; subst w1; [|by eauto..].
  destruct (Hk a (logged evs1 w)) as [evs2 H2]. rewrite H2, logged_logged. eauto.
Qed.

Lemma quiet_for_each {A} (f : A -> M Val unit) (l : list A) :
  (forall x, quiet (f x)) -> quiet (for_each f l).
Proof.
  intros Hf. induction l as [|x l IH]; simpl; [apply quiet_ret|].
  apply quiet_bind; auto.
Qed.

Create HintDb quiet.
Hint Resolve quiet_ret quiet_throw quiet_exit quiet_emit quiet_for_each : quiet.

Ltac quiet_step :=
  first [ apply quiet_bind; [|intros ?]
        | progress eauto with quiet
        | match goal with |- quiet (match ?x with _ => _ end) => destruct x end
        | match goal with |- quiet (if ?x then _ else _) => destruct x end ].

Lemma quiet_existsSync host p : quiet (existsSync (Val:=Val) host p).
Proof. unfold existsSync. repeat quiet_step. Qed.

Lemma quiet_parseEnvFile host p : quiet (parseEnvFile (Val:=Val) host p).
Proof. unfold parseEnvFile, readFileSync. repeat quiet_step. Qed.

Hint Resolve quiet_existsSync quiet_parseEnvFile : quiet.

Lemma quiet_load_layers host rootDir files env :
  quiet (load_layers (Val:=Val) host rootDir env files).
Proof.
  revert env. induction files as [|file files IH]; intros env; simpl.
  - apply quiet_ret.
  - apply quiet_bind; [|done]. unfold load_layer. repeat quiet_step.
Qed.

Lemma quiet_loadEnvVars host customPath : quiet (loadEnvVars (Val:=Val) host customPath).
Proof.
  unfold loadEnvVars, custom_path_exists.
  pose proof quiet_load_layers. repeat quiet_step.
Qed.

Lemma quiet_call_onError handler error : quiet (call_onError (Val:=Val) handler error).
Proof. unfold call_onError. repeat quiet_step. Qed.

(** ** The diagnostics reporter *)

Lemma for_each_emits {A} (f : A -> M Val unit) (g : A -> event) (l : list A) w :
  (forall x w, f x w = (Return tt, logged [g x] w)) ->
  for_each f l w = (Return tt, logged (g <$> l) w).
Proof.
  intros Hf. revert w. induction l as [|x l IH]; intros w; simpl.
  - by rewrite logged_nil.
  - unfold bind. rewrite Hf, IH, logged_logged. done.
Qed.

Lemma handleValidationError_run host error allow w :
  handleValidationError host error allow w =
  if tolerated host allow
  then (Exit 0%Z, logged (report_lines error ++ [ConsoleWarn Msg.dev_continuing]) w)
  else (Exit 1%Z, logged (report_lines error ++ [ConsoleError Msg.check_files]) w).
Proof.
  unfold handleValidationError, tolerated, node_env_is, report_lines.
  unfold bind at 1. rewrite emit_logged.
  unfold bind at 1.
  rewrite (for_each_emits report_issue
             (fun issue => ConsoleError (Msg.issue_line
                (join [c_dot] (seg_to_string <$> path issue)) (message issue))))
    by reflexivity.
  unfold bind at 1. rewrite emit_logged.
  unfold bind at 1.
  rewrite (for_each_emits report_hint
             (fun issue => ConsoleError (Msg.export_hint (first_seg_to_string (path issue)))))
    by reflexivity.
  destruct (bool_decide (allow = Some true) && _);
    unfold bind, process_exit; rewrite emit_logged, !logged_logged, <- !app_assoc; done.
Qed.

(** ** [initEnv], case by case *)

Lemma initEnv_guarded host config w :
  isInitialized w && negb (node_env_is host (js "test")) = true ->
  initEnv host config w
  = (Return (runtimeEnv w), logged [ConsoleWarn Msg.already_initialized] w).
Proof. intros H. unfold initEnv, bind, get_world. rewrite H. reflexivity. Qed.

Lemma initEnv_load_fails host config w o w1 :
  isInitialized w && negb (node_env_is host (js "test")) = false ->
  loadEnvVars host (envPath config) w = (o, w1) ->
  (forall envVars, o <> Return envVars) ->
  exists o' : outcome loc,
    initEnv host config w = (o', w1) /\ forall l, o' <> Return l.
Proof.
  intros Hg Hl Ho. unfold initEnv, bind at 1, get_world. rewrite Hg.
  unfold bind at 1. rewrite Hl. destruct o as [envVars|e|st].
  - by destruct (Ho envVars).
  - by exists (Throw e).
  - by exists (Exit st).
Qed.

(** Past the guard and the loader: the merged mapping goes to the schema,
    and what happens next depends on what [parse] does with it. *)
Lemma initEnv_validates host config w envVars w1 :
  isInitialized w && negb (node_env_is host (js "test")) = false ->
  loadEnvVars host (envPath config) w = (Return envVars, w1) ->
  initEnv host config w =
  let merged := process_env host ∪ envVars in
  let w2 := logged [SchemaParse merged] w1 in
  match parse (schema config) merged with
  | ParseOk validated =>
      let l := fresh (dom (heap w1)) in
      (Return l,
       {| heap := <[l := validated]> (heap w1); runtimeEnv := l; isInitialized := true;
          trace := trace w2 ++ (if node_env_is host (js "production")
                                then [] else [ConsoleLog Msg.validated]) |})
  | ParseThrow (ZodErr zerr) =>
      match onError config with
      | Some handler =>
          (match handler zerr with
           | Return _ => Throw (ZodErr zerr)
           | Throw e => Throw e
           | Exit status => Exit status
           end, logged [OnErrorCall zerr] w2)
      | None =>
          if tolerated host (allowMissingInDev config)
          then (Exit 0%Z, logged (report_lines zerr ++ [ConsoleWarn Msg.dev_continuing]) w2)
          else (Exit 1%Z, logged (report_lines zerr ++ [ConsoleError Msg.check_files]) w2)
      end
  | ParseThrow e => (Throw e, w2)
  end.
Proof.
  intros Hg Hl. unfold initEnv, bind at 1, get_world. rewrite Hg.
  unfold bind at 1. rewrite Hl. unfold try_catch, schema_parse, spread2.
  unfold bind at 1. unfold bind at 1. rewrite emit_logged.
  destruct (parse (schema config) (process_env host ∪ envVars)) as [validated|e]; simpl.
  - unfold bind, alloc, set_runtimeEnv, set_isInitialized, ret. simpl.
    destruct (node_env_is host (js "production")); simpl; [|done].
    by rewrite app_nil_r.
  - unfold throw. destruct e as [msg|zerr|errno p|tag]; try reflexivity.
    destruct (onError config) as [handler|].
    + unfold bind, call_onError, bind. rewrite emit_logged.
      destruct (handler zerr); reflexivity.
    + unfold bind at 1. unfold bind at 1. rewrite handleValidationError_run.
      destruct (tolerated host (allowMissingInDev config)); reflexivity.
Qed.

(** C6. Outside test mode, once a snapshot exists, [initEnv] with any config
    warns and returns the reference held in [runtimeEnv]; the world is the one
    before the call with one warning added to the trace, so no file was
    looked for or read, no schema was asked to parse, and the heap and the
    module variables are untouched. *)
Theorem initEnv_idempotent host config w :
  isInitialized w = true ->
  NODE_ENV host <> Some (js "test") ->
  initEnv host config w
  = (Return (runtimeEnv w), logged [ConsoleWarn Msg.already_initialized] w).
Proof.
  intros Hi Ht. apply initEnv_guarded. rewrite Hi. unfold node_env_is.
  by rewrite bool_decide_eq_false_2.
Qed.

Lemma trace_after_parse (input : dict) (evs : list event) w :
  trace (logged evs (logged [SchemaParse input] w)) = trace w ++ SchemaParse input :: evs.
Proof. unfold logged. cbn [trace]. by rewrite <- app_assoc. Qed.

Lemma no_parse_among (input : dict) (evs : list event) :
  Forall not_a_parse evs -> SchemaParse input ∉ evs.
Proof. intros HF Hin. rewrite Forall_forall in HF. apply (HF _ Hin). Qed.

Lemma report_lines_no_parse error : Forall not_a_parse (report_lines error).
Proof.
  unfold report_lines. rewrite !Forall_app, !Forall_fmap.
  split_and!; try (by repeat constructor); by apply Forall_true.
Qed.

(** C3. What [initEnv] hands to the schema's [parse] is the loader's mapping
    overlaid with the process environment: a key of the process environment
    has the environment's value, whatever the files say, and any other key
    has the value the files gave it, if any. *)
Theorem initEnv_merged_mapping host config w envVars w1 :
  isInitialized w && negb (node_env_is host (js "test")) = false ->
  loadEnvVars host (envPath config) w = (Return envVars, w1) ->
  exists merged rest,
    trace (initEnv host config w).2 = trace w1 ++ SchemaParse merged :: rest
    /\ (forall input, SchemaParse input ∉ rest)
    /\ (forall key value, process_env host !! key = Some value ->
                          merged !! key = Some value)
    /\ (forall key, process_env host !! key = None -> merged !! key = envVars !! key).
Proof.
  intros Hg Hl. rewrite (initEnv_validates _ _ _ _ _ Hg Hl). cbv zeta.
  exists (process_env host ∪ envVars).
  assert (Hm : (forall key value, process_env host !! key = Some value ->
                  (process_env host ∪ envVars) !! key = Some value)
               /\ (forall key, process_env host !! key = None ->
                  (process_env host ∪ envVars) !! key = envVars !! key)).
  { split; intros key.
    - intros value H. by apply lookup_union_Some_l.
    - intros H. by apply lookup_union_r. }
  destruct Hm as [Hm1 Hm2].
  destruct (parse (schema config) (process_env host ∪ envVars)) as [validated|e].
  - exists (if node_env_is host (js "production") then [] else [ConsoleLog Msg.validated]).
    split_and!; try done.
    + cbn [snd trace logged]. by rewrite <- app_assoc.
    + intros input. apply no_parse_among.
      destruct (node_env_is host (js "production")); by repeat constructor.
  - destruct e as [msg|zerr|errno p|tag];
      try (exists []; split_and!; [done | intros input; apply not_elem_of_nil | done..]).
    destruct (onError config) as [handler|].
    + exists [OnErrorCall zerr]. split_and!; try done.
      * cbn [snd]. apply trace_after_parse.
      * intros input. apply no_parse_among. by repeat constructor.
    + destruct (tolerated host (allowMissingInDev config)).
      * exists (report_lines zerr ++ [ConsoleWarn Msg.dev_continuing]).
        split_and!; try done; [cbn [snd]; apply trace_after_parse|].
        intros input. apply no_parse_among, Forall_app. split.
        -- apply report_lines_no_parse.
        -- by repeat constructor.
      * exists (report_lines zerr ++ [ConsoleError Msg.check_files]).
        split_and!; try done; [cbn [snd]; apply trace_after_parse|].
        intros input. apply no_parse_among, Forall_app. split.
        -- apply report_lines_no_parse.
        -- by repeat constructor.
Qed.

(** ** Failure leaves the cache alone *)

Lemma same_cache_logged evs w : same_cache w (logged evs w).
Proof. done. Qed.


Lemma loadEnvVars_same_cache host customPath w o w1 :
  loadEnvVars host customPath w = (o, w1) -> same_cache w w1.
Proof.
  intros H. destruct (quiet_loadEnvVars host customPath w) as [evs Hq].
  rewrite H in Hq. simpl in Hq. subst w1. apply same_cache_logged.
Qed.




(** ** Reading the cache *)

Lemma getEnv_initialized w :
  isInitialized w = true -> getEnv w = alloc (cached w) w.
Proof. intros H. unfold getEnv, bind, get_world. by rewrite H. Qed.

Lemma fresh_not_allocated w : heap w !! fresh (dom (heap w)) = None.
Proof. apply not_elem_of_dom, is_fresh. Qed.

(** C7. Once initialized, [getEnv] returns a new object, not the one the
    cache holds, with exactly the cached properties and values; the cache
    itself is unchanged. Whatever the caller then does to that object, the
    cache still holds the same snapshot and the next [getEnv] returns it
    again. *)
Theorem getEnv_shallow_copy w :
  isInitialized w = true ->
  is_Some (heap w !! runtimeEnv w) ->
  exists l w',
    getEnv w = (Return l, w')
    /\ heap w !! l = None
    /\ l <> runtimeEnv w'
    /\ heap w' !! l = Some (cached w)
    /\ cached w' = cached w
    /\ runtimeEnv w' = runtimeEnv w
    /\ isInitialized w' = true
    /\ forall f : gmap jsstring Val -> gmap jsstring Val,
         cached (mutate l f w') = cached w
         /\ exists l2 w2,
              getEnv (mutate l f w') = (Return l2, w2)
              /\ l2 <> l
              /\ heap w2 !! l2 = Some (cached w).
Proof.
  intros Hi [snapshot Hs].
  pose proof (fresh_not_allocated w) as Hfresh.
  set (l := fresh (dom (heap w))) in *.
  assert (Hne : l <> runtimeEnv w) by (intros E; rewrite E, Hs in Hfresh; done).
  exists l, {| heap := <[l := cached w]> (heap w); runtimeEnv := runtimeEnv w;
               isInitialized := isInitialized w; trace := trace w |}.
  rewrite (getEnv_initialized _ Hi). split_and!; try done.
  - cbn [heap]. apply lookup_insert_eq.
  - unfold cached, deref. cbn [heap runtimeEnv]. by rewrite lookup_insert_ne.
  - intros f.
    set (w' := {| heap := <[l := cached w]> (heap w); runtimeEnv := runtimeEnv w;
                  isInitialized := isInitialized w; trace := trace w |}).
    assert (Hc : cached (mutate l f w') = cached w).
    { unfold cached, deref, mutate, w'. cbn [heap runtimeEnv].
      rewrite lookup_alter_ne by done. by rewrite lookup_insert_ne. }
    split; [exact Hc|].
    rewrite getEnv_initialized by done. unfold alloc. rewrite Hc.
    eexists _, _. split; [reflexivity|]. split.
    + intros E. pose proof (fresh_not_allocated (mutate l f w')) as Hf.
      rewrite E in Hf. unfold mutate, w' in Hf. cbn [heap] in Hf.
      rewrite lookup_alter_eq, lookup_insert_eq in Hf. done.
    + cbn [heap]. apply lookup_insert_eq.
Qed.

(** What [initEnv] returns is the very object the cache holds. *)
Lemma initEnv_returns_cache host config w l w' :
  initEnv host config w = (Return l, w') -> l = runtimeEnv w'.
Proof.
  intros Hrun.
  destruct (isInitialized w && negb (node_env_is host (js "test"))) eqn:Hg.
  { rewrite (initEnv_guarded _ _ _ Hg) in Hrun. by injection Hrun as <- <-. }
  destruct (loadEnvVars host (envPath config) w) as [o1 w1] eqn:Hl.
  destruct o1 as [envVars|e|st].
  - rewrite (initEnv_validates _ _ _ _ _ Hg Hl) in Hrun. cbv zeta in Hrun.
    destruct (parse (schema config) (process_env host ∪ envVars)) as [validated|e].
    + by injection Hrun as <- <-.
    + destruct e as [msg|zerr|errno p|tag]; try discriminate.
      destruct (onError config) as [h|];
        [destruct (h zerr)|destruct (tolerated host (allowMissingInDev config))];
        discriminate.
  - destruct (initEnv_load_fails _ config _ _ _ Hg Hl) as (o' & Hrun' & Hno); [done|].
    rewrite Hrun' in Hrun. injection Hrun as -> _. by destruct (Hno l).
  - destruct (initEnv_load_fails _ config _ _ _ Hg Hl) as (o' & Hrun' & Hno); [done|].
    rewrite Hrun' in Hrun. injection Hrun as -> _. by destruct (Hno l).
Qed.

(** After [initEnv] has returned, the flag is set and [runtimeEnv] points to
    an object of the heap. *)
Lemma initEnv_returns_initialized host config w l w' :
  initEnv host config w = (Return l, w') ->
  is_Some (heap w !! runtimeEnv w) ->
  isInitialized w' = true /\ is_Some (heap w' !! runtimeEnv w').
Proof.
  intros Hrun Hwf.
  destruct (isInitialized w && negb (node_env_is host (js "test"))) eqn:Hg.
  { rewrite (initEnv_guarded _ _ _ Hg) in Hrun. injection Hrun as <- <-.
    apply andb_true_iff in Hg as [Hi _]. done. }
  destruct (loadEnvVars host (envPath config) w) as [o1 w1] eqn:Hl.
  destruct o1 as [envVars|e|st].
  - rewrite (initEnv_validates _ _ _ _ _ Hg Hl) in Hrun. cbv zeta in Hrun.
    destruct (parse (schema config) (process_env host ∪ envVars)) as [validated|e].
    + injection Hrun as <- <-. cbn [isInitialized heap runtimeEnv].
      split; [done|]. rewrite lookup_insert_eq. eauto.
    + destruct e as [msg|zerr|errno p|tag]; try discriminate.
      destruct (onError config) as [h|];
        [destruct (h zerr)|destruct (tolerated host (allowMissingInDev config))];
        discriminate.
  - destruct (initEnv_load_fails _ config _ _ _ Hg Hl) as (o' & Hrun' & Hno); [done|].
    rewrite Hrun' in Hrun. injection Hrun as -> _. by destruct (Hno l).
  - destruct (initEnv_load_fails _ config _ _ _ Hg Hl) as (o' & Hrun' & Hno); [done|].
    rewrite Hrun' in Hrun. injection Hrun as -> _. by destruct (Hno l).
Qed.

(** [createEnv] hands out a copy, as [getEnv] does. *)
Lemma createEnv_returns_copy host config w l w' :
  is_Some (heap w !! runtimeEnv w) ->
  createEnv host config w = (Return l, w') ->
  l <> runtimeEnv w' /\ heap w' !! l = Some (cached w').
Proof.
  intros Hwf. unfold createEnv, bind.
  destruct (initEnv host config w) as [[l0|e|st] w1] eqn:Hrun; try discriminate.
  destruct (initEnv_returns_initialized _ _ _ _ _ Hrun Hwf) as [Hi [snapshot Hs]].
  rewrite (getEnv_initialized _ Hi). unfold alloc. intros [= <- <-].
  pose proof (fresh_not_allocated w1) as Hfresh.
  assert (Hne : fresh (dom (heap w1)) <> runtimeEnv w1) by congruence.
  unfold cached, deref. cbn [heap runtimeEnv]. split; [done|].
  rewrite lookup_insert_eq. by rewrite lookup_insert_ne.
Qed.

End LifecycleFacts.

(** ** The two defects, on concrete inputs *)

(** C1. With [NODE_ENV] unset the loader takes the mode to be development,
    but the reporter, asked to tolerate failures in development, exits with
    status 1. In general the status is 0 exactly when the flag is set and
    [NODE_ENV] is the string development, and the reporter always exits. *)
Theorem handleValidationError_unset_NODE_ENV :
  let host := Demo.host [] [] in
  NODE_ENV host = None
  /\ resolve_mode host = js "development"
  /\ (forall (error : ZodError) (w : World jsstring),
        (handleValidationError host error (Some true) w).1 = Exit 1%Z)
  /\ (forall host' (error : ZodError) allow (w : World jsstring),
        exists w',
          handleValidationError host' error allow w
          = (Exit (if tolerated host' allow then 0 else 1)%Z, w')
          /\ same_cache w w'
          /\ (tolerated host' allow = true ->
              exists evs, trace w' = trace w ++ evs ++ [ConsoleWarn Msg.dev_continuing])).
Proof.
  intros host. split_and!; try reflexivity.
  - intros error w. by rewrite handleValidationError_run.
  - intros host' error allow w. rewrite handleValidationError_run.
    destruct (tolerated host' allow); eexists; split_and!; try done.
    intros _. by exists (report_lines error).
Qed.

(** C2. The object [initEnv] returns is the cached one: after a first
    successful [initEnv], a caller that assigns to the returned value changes
    what the cache holds and what [getEnv] hands out from then on; a second
    [initEnv], on the warning path, returns that same object again. *)
Theorem initEnv_result_aliases_cache :
  let host := Demo.host [("PORT", "3000")]%string [] in
  let config := Demo.config (Demo.required ["PORT"%string]) in
  exists l w1,
    initEnv host config initial_world = (Return l, w1)
    /\ cached w1 !! js "PORT" = Some (js "3000")
    /\ l = runtimeEnv w1
    /\ let w2 := mutate l (fun o => set_prop o (js "PORT") (js "0")) w1 in
       cached w2 !! js "PORT" = Some (js "0")
       /\ (exists l2 w3, getEnv w2 = (Return l2, w3)
                         /\ deref w3 l2 !! js "PORT" = Some (js "0"))
       /\ (exists w4, initEnv host config w2 = (Return l, w4)).
Proof.
  intros host config.
  destruct (initEnv host config initial_world) as [o w1] eqn:Hrun.
  vm_compute in Hrun. injection Hrun as <- <-.
  eexists _, _. split; [reflexivity|].
  split; [vm_compute; reflexivity|]. split; [reflexivity|].
  split; [vm_compute; reflexivity|]. split.
  - eexists _, _. split; [vm_compute; reflexivity|]. vm_compute. reflexivity.
  - eexists. vm_compute. reflexivity.
Qed.

(** ** The file format *)

Lemma greedy_fails lo k (s : jsstring) rest :
  (forall j, (lo <= j <= k)%nat -> rest (drop j s) = None) ->
  Regex.greedy lo k s rest = None.
Proof.
  induction k as [|k IH]; intros H; cbn [Regex.greedy].
  - destruct (0 <? lo)%nat eqn:E; [done|]. apply Nat.ltb_ge in E.
    rewrite (H 0%nat) by lia. done.
  - destruct (S k <? lo)%nat eqn:E; [done|]. apply Nat.ltb_ge in E.
    rewrite (H (S k)) by lia. apply IH. intros j Hj. apply H. lia.
Qed.

Lemma greedy_first lo k (s : jsstring) rest groups :
  (lo <= k)%nat -> rest (drop k s) = Some groups ->
  Regex.greedy lo k s rest = Some (k, groups).
Proof.
  intros Hlo H. destruct k as [|k]; cbn [Regex.greedy].
  - replace (0 <? lo)%nat with false by (symmetry; apply Nat.ltb_ge; lia). by rewrite H.
  - replace (S k <? lo)%nat with false by (symmetry; apply Nat.ltb_ge; lia). by rewrite H.
Qed.

(** The run of characters other than [=] ends at the first [=], or at the
    end of the string. *)
Lemma run_except_index (s : jsstring) :
  match FormatSpec.index_of c_eq s with
  | Some i => Regex.run (Regex.Except c_eq) s = i /\ drop i s = c_eq :: drop (S i) s
  | None => Regex.run (Regex.Except c_eq) s = length s
  end.
Proof.
  induction s as [|c s IH]; [done|]. cbn [FormatSpec.index_of Regex.run Regex.accepts].
  destruct (N.eqb_spec c c_eq) as [->|Hne]; cbn [negb]; [done|].
  destruct (FormatSpec.index_of c_eq s) as [i|]; cbn.
  - destruct IH as [-> IH]. done.
  - by rewrite IH.
Qed.

Lemma run_except_before (s : jsstring) j :
  (j < Regex.run (Regex.Except c_eq) s)%nat ->
  exists c rest, drop j s = c :: rest /\ (c =? c_eq) = false.
Proof.
  revert j. induction s as [|c s IH]; intros j; cbn [Regex.run Regex.accepts]; [lia|].
  destruct (c =? c_eq) eqn:E; cbn [negb]; [lia|].
  destruct j as [|j]; [eauto|]. intros Hj. apply IH. lia.
Qed.

Lemma run_dot_all (s : jsstring) :
  (Regex.run Regex.Dot s <= length s)%nat
  /\ (Regex.run Regex.Dot s = length s <->
      forallb (fun c => negb (is_line_terminator c)) s = true).
Proof.
  induction s as [|c s [IH1 IH2]]; [done|]. cbn [Regex.run Regex.accepts forallb length].
  destruct (is_line_terminator c); cbn [negb andb].
  - split; [lia|]. split; [lia|done].
  - split; [lia|]. rewrite <- IH2. lia.
Qed.

(** Group 2 and the end anchor: the rest of the line, when it holds no line
    terminator. *)
Lemma exec_tail (s : jsstring) :
  Regex.exec [(true, Regex.Star Regex.Dot)] s =
  if forallb (fun c => negb (is_line_terminator c)) s then Some [s] else None.
Proof.
  cbn [Regex.exec]. destruct (run_dot_all s) as [Hle Hall].
  destruct (forallb _ s) eqn:E.
  - assert (Hrun : Regex.run Regex.Dot s = length s) by (by apply Hall).
    rewrite (greedy_first _ _ _ _ []); [|lia|].
    + cbn. by rewrite Hrun, firstn_all.
    + by rewrite Hrun, drop_all.
  - rewrite greedy_fails; [done|]. intros j Hj.
    assert (Hlt : (j < length s)%nat).
    { destruct (decide (Regex.run Regex.Dot s = length s)) as [Heq|Hne]; [|lia].
      apply Hall in Heq. congruence. }
    destruct (drop j s) eqn:Ed; [|done].
    apply (f_equal length) in Ed. rewrite length_drop in Ed. cbn in Ed. lia.
Qed.

(** What the pattern of line 85 matches: a line with a first [=] that is not
    its first character and no line terminator after it; group 1 is what
    stands before that [=], group 2 what stands after. *)
Lemma match_assignment_index (s : jsstring) :
  match_assignment s =
  match FormatSpec.index_of c_eq s with
  | Some (S i) =>
      if forallb (fun c => negb (is_line_terminator c)) (drop (S (S i)) s)
      then Some (take (S i) s, drop (S (S i)) s) else None
  | _ => None
  end.
Proof.
  unfold match_assignment, assignment_pattern.
  set (rest := Regex.exec [(false, Regex.Once (Regex.Exactly c_eq));
                           (true, Regex.Star Regex.Dot)]).
  change (Regex.exec _ s)
    with ((fun r : nat * list jsstring => take r.1 s :: r.2)
            <$> Regex.greedy 1 (Regex.run (Regex.Except c_eq) s) s rest).
  assert (Hbefore : forall j, (j < Regex.run (Regex.Except c_eq) s)%nat ->
                              rest (drop j s) = None).
  { intros j Hj. destruct (run_except_before s j Hj) as (c & tl & -> & Hc).
    unfold rest. cbn [Regex.exec Regex.accepts]. by rewrite Hc. }
  assert (Hat : forall tl, rest (c_eq :: tl) =
            if forallb (fun c => negb (is_line_terminator c)) tl then Some [tl] else None).
  { intros tl. unfold rest.
    change (Regex.exec ((false, Regex.Once (Regex.Exactly c_eq)) :: ?re) (c_eq :: tl))
      with ((fun r : nat * list jsstring => r.2)
              <$> ((fun groups => (1%nat, groups)) <$> Regex.exec re tl)).
    rewrite exec_tail. by destruct (forallb _ tl). }
  pose proof (run_except_index s) as Hrun.
  destruct (FormatSpec.index_of c_eq s) as [i|].
  - destruct Hrun as [Hrun Hdrop]. rewrite Hrun in *.
    destruct i as [|i].
    + cbn [Regex.greedy Nat.ltb Nat.leb]. done.
    + destruct (forallb _ (drop (S (S i)) s)) eqn:E.
      * rewrite (greedy_first _ _ _ _ [drop (S (S i)) s]); [done|lia|].
        by rewrite Hdrop, Hat, E.
      * rewrite greedy_fails; [done|]. intros j Hj.
        destruct (decide (j = S i)) as [->|Hne].
        -- by rewrite Hdrop, Hat, E.
        -- apply Hbefore. lia.
  - rewrite Hrun in *. rewrite greedy_fails; [done|]. intros j Hj.
    destruct (decide (j = length s)) as [->|Hne].
    + rewrite drop_all. done.
    + apply Hbefore. lia.
Qed.

Lemma is_quoted_wrapped (value : jsstring) :
  value <> [c_dquote] -> value <> [c_squote] ->
  is_quoted value = FormatSpec.wrapped_in c_dquote value || FormatSpec.wrapped_in c_squote value.
Proof.
  intros Hd Hs. unfold is_quoted. rewrite !endsWith_last.
  destruct value as [|a [|b rest]]; [done| |].
  - cbn [last FormatSpec.wrapped_in orb].
    rewrite !bool_decide_eq_false_2, !andb_false_r; [done| |]; intros [= ->]; done.
  - cbn [startsWith FormatSpec.wrapped_in]. rewrite !andb_true_r.
    rewrite (N.eqb_sym c_dquote a), (N.eqb_sym c_squote a). done.
Qed.

(** On an ordinary line the code finds the entry of the format, where a
    line without a key has none. *)
Lemma parse_line_keyed_entry (line : jsstring) :
  FormatSpec.ordinary line = true ->
  parse_line line = FormatSpec.keyed_entry line
  /\ forall key value, parse_line line = Some (key, value) -> key <> proto_key.
Proof.
  unfold FormatSpec.ordinary, parse_line, FormatSpec.keyed_entry, FormatSpec.entry,
    FormatSpec.halves.
  destruct (trim line) as [|c t] eqn:Et; [done|].
  pose proof (trim_head _ _ _ Et) as Hc.
  cbn [startsWith orb]. rewrite andb_true_r, (N.eqb_sym c_hash c).
  destruct (c =? c_hash); [done|].
  rewrite match_assignment_index.
  destruct (FormatSpec.index_of c_eq (c :: t)) as [i|]; [|done].
  cbn [fmap option_fmap option_map fst snd].
  destruct i as [|i].
  { cbn [take]. intros _. done. }
  cbn [take]. rewrite !andb_true_iff, !negb_true_iff, !bool_decide_eq_false.
  intros [[[Hterm Hdq] Hsq] Hproto]. rewrite Hterm.
  destruct (trim_cons c (take i t) Hc) as [kept Hk].
  rewrite is_quoted_wrapped, slice_inner by done.
  unfold FormatSpec.unquote. rewrite Hk in *. split; [done|].
  intros key value [= <- _]. done.
Qed.

Lemma add_line_entry (env : dict) (line : jsstring) :
  FormatSpec.ordinary line = true ->
  add_line env line =
  match FormatSpec.keyed_entry line with
  | Some (key, value) => <[key := value]> env
  | None => env
  end.
Proof.
  intros Ho. destruct (parse_line_keyed_entry line Ho) as [He Hp].
  unfold add_line. rewrite <- He.
  destruct (parse_line line) as [[key value]|]; [|done].
  unfold set_prop. rewrite decide_False; [done|]. by eapply Hp.
Qed.

Lemma foldl_add_line (ls : list jsstring) (env : dict) :
  Forall (fun line => FormatSpec.ordinary line = true) ls ->
  foldl add_line env ls = list_to_map (rev (omap FormatSpec.keyed_entry ls)) ∪ env.
Proof.
  intros HF. revert env. induction HF as [|line ls Ho _ IH]; intros env.
  - cbn. by rewrite (left_id ∅ (∪)).
  - cbn [foldl]. rewrite IH, (add_line_entry _ _ Ho).
    destruct (FormatSpec.keyed_entry line) as [[key value]|] eqn:E;
      cbn [omap list_omap]; rewrite E; [|done].
    cbn [rev]. rewrite list_to_map_app, <- (assoc_L (∪)). f_equal.
    cbn. by rewrite insert_union_singleton_l, insert_empty.
Qed.

Lemma parseEnvContent_keyed (content : jsstring) :
  Forall (fun line => FormatSpec.ordinary line = true) (split_on c_lf content) ->
  parseEnvContent content = FormatSpec.keyed_parse content.
Proof.
  intros HF. unfold parseEnvContent, FormatSpec.keyed_parse, FormatSpec.parse_with.
  rewrite (foldl_add_line _ _ HF). apply (right_id ∅ (∪)).
Qed.

Section FormatFacts.
Context {Val : Type}.

Lemma parseEnvFile_reads (host : Host) (filePath content : jsstring) (w : World Val) :
  fs host filePath = Some (File content) ->
  parseEnvFile host filePath w = (Return (parseEnvContent content), logged [FsRead filePath] w).
Proof.
  intros Hf. unfold parseEnvFile, readFileSync, bind. rewrite emit_logged, Hf. done.
Qed.

(** C5, as amended. For a file all of whose lines are ordinary,
    [parseEnvFile] returns the entries of its lines, split at line feeds, a
    later entry replacing an earlier one with the same key: no entry for a
    blank line, for a line whose first non-whitespace character is [#] or
    [=], or for a line without [=]; for any other line the key is the
    trimmed text before the first [=] and the value the trimmed text after
    it, less one layer of quoting when it is wrapped in a pair of double or
    of single quotes. *)
Theorem parseEnvFile_format (host : Host) (filePath content : jsstring) (w : World Val) :
  fs host filePath = Some (File content) ->
  Forall (fun line => FormatSpec.ordinary line = true) (split_on c_lf content) ->
  parseEnvFile host filePath w
  = (Return (FormatSpec.keyed_parse content), logged [FsRead filePath] w).
Proof.
  intros Hf HF. rewrite (parseEnvFile_reads _ _ _ _ Hf).
  by rewrite (parseEnvContent_keyed _ HF).
Qed.

End FormatFacts.

(** ** The loader *)

Lemma add_line_no_proto (env : dict) (line : jsstring) :
  env !! proto_key = None -> add_line env line !! proto_key = None.
Proof.
  intros H. unfold add_line, set_prop.
  destruct (parse_line line) as [[key value]|]; [|done].
  destruct (decide (key = proto_key)); [done|]. by rewrite lookup_insert_ne.
Qed.

Lemma parseEnvContent_no_proto (content : jsstring) :
  parseEnvContent content !! proto_key = None.
Proof.
  unfold parseEnvContent.
  assert (H : forall ls (env : dict),
             env !! proto_key = None -> foldl add_line env ls !! proto_key = None).
  { induction ls as [|line ls IH]; intros env He; [done|].
    cbn [foldl]. by apply IH, add_line_no_proto. }
  by apply H.
Qed.

Lemma object_assign_parsed (env : dict) (content : jsstring) :
  object_assign env (parseEnvContent content) = parseEnvContent content ∪ env.
Proof.
  unfold object_assign. rewrite map_filter_id; [done|].
  intros key value Hk. cbn. intros ->.
  by rewrite parseEnvContent_no_proto in Hk.
Qed.

Lemma resolve_mode_amended (host : Host) : resolve_mode host = LoaderSpec.mode host.
Proof.
  unfold resolve_mode, LoaderSpec.mode.
  destruct (NODE_ENV host) as [[|c m]|]; done.
Qed.

Section LoaderFacts.
Context {Val : Type}.
Implicit Types (w : World Val) (host : Host).

Lemma load_layer_run host env file w :
  fs host (path_join host (cwd host) file) <> Some Directory ->
  exists evs,
    load_layer host (cwd host) env file w
    = (Return (LoaderSpec.layer host file ∪ env), logged evs w).
Proof.
  intros Hd. unfold load_layer, LoaderSpec.layer, existsSync.
  unfold bind at 1. unfold bind at 1. rewrite emit_logged. cbn [ret].
  destruct (fs host (path_join host (cwd host) file)) as [[content|]|] eqn:Hf; [|done|].
  - rewrite bool_decide_eq_true_2 by eauto.
    unfold bind. rewrite (parseEnvFile_reads _ _ _ _ Hf), logged_logged.
    cbn [ret]. rewrite object_assign_parsed. eauto.
  - rewrite bool_decide_eq_false_2 by (by intros [? ?]).
    cbn [ret]. exists [FsExists (path_join host (cwd host) file)].
    by rewrite (left_id_L ∅ (∪)).
Qed.

Lemma load_layers_run host files env w :
  (forall file, file ∈ files -> fs host (path_join host (cwd host) file) <> Some Directory) ->
  exists evs,
    load_layers host (cwd host) env files w
    = (Return (foldl (fun acc file => LoaderSpec.layer host file ∪ acc) env files),
       logged evs w).
Proof.
  revert env w. induction files as [|file files IH]; intros env w Hd.
  - exists []. by rewrite logged_nil.
  - cbn [load_layers foldl]. unfold bind.
    destruct (load_layer_run host env file w) as [evs1 ->]; [apply Hd; left|].
    destruct (IH (LoaderSpec.layer host file ∪ env) (logged evs1 w)) as [evs2 ->].
    { intros f Hf. apply Hd. by right. }
    rewrite logged_logged. eauto.
Qed.

Lemma load_layers_layered host w :
  (forall file, file ∈ envFiles (resolve_mode host) ->
     fs host (path_join host (cwd host) file) <> Some Directory) ->
  exists evs,
    load_layers host (cwd host) ∅ (envFiles (resolve_mode host)) w
    = (Return (LoaderSpec.layered host (LoaderSpec.mode host)), logged evs w).
Proof.
  intros Hd. destruct (load_layers_run host _ ∅ w Hd) as [evs ->].
  exists evs. rewrite <- resolve_mode_amended. unfold envFiles, LoaderSpec.layered.
  cbn [foldl]. by rewrite (right_id_L ∅ (∪)).
Qed.

(** C4, as amended. When an explicit path is given and a file is there,
    [loadEnvVars] returns the parsed contents of that file and nothing else.
    Otherwise, also when the explicit path names nothing, it returns the
    merge of those of [.env], [.env.<mode>], [.env.local] and
    [.env.<mode>.local] under the working directory that exist, a later
    file's entries replacing those of an earlier one, where the mode is
    [NODE_ENV], or development when [NODE_ENV] is unset or empty. *)
Theorem loadEnvVars_layers host customPath w :
  fs host [] = None ->
  LoaderSpec.only_files host customPath (LoaderSpec.mode host) ->
  exists evs,
    loadEnvVars host customPath w
    = (Return (LoaderSpec.load (LoaderSpec.mode host) host customPath), logged evs w)
    /\ (forall p content, customPath = Some p -> fs host p = Some (File content) ->
        evs = [FsExists p; FsRead p]).
Proof.
  intros Hempty Hfiles. rewrite <- resolve_mode_amended in Hfiles.
  assert (Hlayers : match customPath with Some p => fs host p = None | None => True end ->
             forall w', exists evs,
               load_layers host (cwd host) ∅ (envFiles (resolve_mode host)) w'
               = (Return (LoaderSpec.layered host (LoaderSpec.mode host)), logged evs w')).
  { intros Hnone w'. apply load_layers_layered. intros file Hin. apply Hfiles.
    unfold LoaderSpec.consulted. destruct customPath as [p|].
    - rewrite Hnone. by apply list_elem_of_fmap_2.
    - by apply list_elem_of_fmap_2. }
  unfold loadEnvVars, LoaderSpec.load, custom_path_exists.
  destruct customPath as [[|c p]|].
  - unfold bind, ret. rewrite Hempty. destruct (Hlayers Hempty w) as [evs ->].
    exists evs. split; [done|]. intros p' content [= <-]. by rewrite Hempty.
  - unfold existsSync. unfold bind at 1. unfold bind at 1. rewrite emit_logged. cbn [ret].
    destruct (fs host (c :: p)) as [[content|]|] eqn:Hf.
    + rewrite bool_decide_eq_true_2 by eauto.
      unfold bind. rewrite (parseEnvFile_reads _ _ _ _ Hf), logged_logged.
      cbn [ret]. rewrite object_assign_parsed.
      exists [FsExists (c :: p); FsRead (c :: p)]. rewrite (right_id_L ∅ (∪)).
      split; [done|]. by intros p' content' [= <-].
    + destruct (Hfiles (c :: p)); [|done].
      unfold LoaderSpec.consulted. rewrite Hf. by left.
    + rewrite bool_decide_eq_false_2 by (by intros [? ?]).
      destruct (Hlayers eq_refl (logged [FsExists (c :: p)] w)) as [evs ->].
      rewrite logged_logged. eexists. split; [done|].
      intros p' content [= <-] Hc. congruence.
  - unfold bind, ret. destruct (Hlayers I w) as [evs ->].
    exists evs. split; [done|]. by intros p' content [=].
Qed.

End LoaderFacts.

(** ** Concrete runs *)

(** C5: as stated, a line such as [=foo] would yield an entry with the empty
    key; the code yields none. *)
Lemma parseEnvFile_stated_format_fails :
  let host := Demo.host [] [("/app/.env"%string, js "=foo")] in
  let run := parseEnvFile (Val:=jsstring) host (js "/app/.env") initial_world in
  run.1 = Return ∅
  /\ FormatSpec.parse (js "=foo") = {[ [] := js "foo" ]}
  /\ run.1 <> Return (FormatSpec.parse (js "=foo")).
Proof.
  intros host run.
  assert (H1 : run.1 = Return ∅) by (vm_compute; reflexivity).
  assert (H2 : FormatSpec.parse (js "=foo") = {[ [] := js "foo" ]})
    by (vm_compute; reflexivity).
  split_and!; [exact H1 | exact H2 |]. rewrite H1, H2. intros H.
  apply (f_equal (fun o => match o with Return m => m !! [] | _ => None end)) in H.
  rewrite lookup_empty, lookup_singleton_eq in H. discriminate.
Qed.

Lemma parseEnvFile_format_witness :
  let content :=
    join [c_lf]
      [ js "# comment"; []; js "KEY=" ++ [c_dquote] ++ js "hello world" ++ [c_dquote];
        js "NOEQUALS" ++ [c_cr]; js "B='a'" ++ [c_cr]; js "=foo"; js " PORT = 3000 ";
        js "PORT=8080=x" ] in
  let host := Demo.host [] [("/app/.env"%string, content)] in
  parseEnvFile (Val:=jsstring) host (js "/app/.env") initial_world
  = (Return (list_to_map [ (js "KEY", js "hello world"); (js "B", js "a");
                           (js "PORT", js "8080=x") ]),
     logged [FsRead (js "/app/.env")] initial_world).
Proof.
  intros content host.
  rewrite (parseEnvFile_format host (js "/app/.env") content initial_world).
  - vm_compute. reflexivity.
  - reflexivity.
  - let ls := eval vm_compute in (split_on c_lf content) in
    change (split_on c_lf content) with ls.
    repeat (constructor; [vm_compute; reflexivity|]). constructor.
Defined.

(** C4: as stated, an empty [NODE_ENV] would select [.env.] and
    [.env..local]; the code reads the development files. *)
Lemma loadEnvVars_stated_mode_fails :
  let host := Demo.host [("NODE_ENV", "")]%string
                        [("/app/.env.development"%string, js "A=1")] in
  let run := loadEnvVars (Val:=jsstring) host None initial_world in
  run.1 = Return {[ js "A" := js "1" ]}
  /\ LoaderSpec.load (LoaderSpec.stated_mode host) host None = ∅
  /\ run.1 <> Return (LoaderSpec.load (LoaderSpec.stated_mode host) host None).
Proof.
  intros host run.
  assert (H1 : run.1 = Return {[ js "A" := js "1" ]}) by (vm_compute; reflexivity).
  assert (H2 : LoaderSpec.load (LoaderSpec.stated_mode host) host None = ∅)
    by (vm_compute; reflexivity).
  split_and!; [exact H1 | exact H2 |]. rewrite H1, H2. intros H.
  apply (f_equal (fun o => match o with Return m => m !! js "A" | _ => None end)) in H.
  rewrite lookup_empty, lookup_singleton_eq in H. discriminate.
Qed.

Lemma loadEnvVars_layers_witness :
  let host := Demo.host [("NODE_ENV", "production")]%string
                [ ("/app/.env"%string, lines ["PORT=3000"; "HOST=a"]%string);
                  ("/app/.env.production"%string, lines ["PORT=8080"]%string);
                  ("/etc/app.env"%string, lines ["ONLY=1"]%string) ] in
  (exists evs,
     loadEnvVars (Val:=jsstring) host None initial_world
     = (Return (list_to_map [(js "PORT", js "8080"); (js "HOST", js "a")]),
        logged evs initial_world))
  /\ loadEnvVars (Val:=jsstring) host (Some (js "/etc/app.env")) initial_world
     = (Return (list_to_map [(js "ONLY", js "1")]),
        logged [FsExists (js "/etc/app.env"); FsRead (js "/etc/app.env")] initial_world)
  /\ (exists evs,
        loadEnvVars (Val:=jsstring) host (Some (js "/etc/missing.env")) initial_world
        = (Return (list_to_map [(js "PORT", js "8080"); (js "HOST", js "a")]),
           logged evs initial_world)).
Proof.
  intros host.
  assert (Hfiles : forall customPath,
             LoaderSpec.only_files host customPath (LoaderSpec.mode host)).
  { intros customPath p _. unfold host, Demo.host. cbn [fs].
    induction [("/app/.env"%string, lines ["PORT=3000"; "HOST=a"]%string);
               ("/app/.env.production"%string, lines ["PORT=8080"]%string);
               ("/etc/app.env"%string, lines ["ONLY=1"]%string)] as [|[name text] files IH];
      cbn [Demo.lookup_file]; [done|].
    by destruct (decide (p = js name)). }
  split_and!.
  - destruct (loadEnvVars_layers host None (initial_world (Val:=jsstring)))
      as (evs & -> & _); [reflexivity | apply Hfiles |].
    exists evs. do 2 f_equal.
  - destruct (loadEnvVars_layers host (Some (js "/etc/app.env"))
                (initial_world (Val:=jsstring))) as (evs & -> & Hevs);
      [reflexivity | apply Hfiles |].
    rewrite (Hevs _ _ eq_refl eq_refl). do 2 f_equal.
  - destruct (loadEnvVars_layers host (Some (js "/etc/missing.env"))
                (initial_world (Val:=jsstring))) as (evs & -> & _);
      [reflexivity | apply Hfiles |].
    exists evs. do 2 f_equal.
Defined.

Lemma initEnv_merged_mapping_witness :
  let host := Demo.host [("PORT", "8080")]%string
                [("/app/.env"%string, lines ["PORT=3000"; "HOST=localhost"]%string)] in
  let config := Demo.config (Demo.required ["PORT"; "HOST"]%string) in
  exists merged rest before,
    trace (initEnv host config initial_world).2 = before ++ SchemaParse merged :: rest
    /\ (forall input, SchemaParse input ∉ rest)
    /\ merged !! js "PORT" = Some (js "8080")
    /\ merged !! js "HOST" = Some (js "localhost").
Proof.
  intros host config.
  set (r := loadEnvVars host (envPath config) (initial_world (Val:=jsstring))).
  assert (Hr : r = (Return (list_to_map [(js "PORT", js "3000");
                                         (js "HOST", js "localhost")]), r.2)).
  { rewrite (surjective_pairing r) at 1. f_equal; vm_compute; reflexivity. }
  destruct (initEnv_merged_mapping host config initial_world _ _ eq_refl Hr)
    as (merged & rest & Ht & Hno & Henv & Hfile).
  exists merged, rest, (trace r.2). split_and!; [exact Ht | exact Hno | |].
  - apply Henv. vm_compute. reflexivity.
  - rewrite Hfile by (vm_compute; reflexivity). vm_compute. reflexivity.
Defined.

Lemma initEnv_idempotent_witness :
  let host := Demo.host [("NODE_ENV", "production"); ("PORT", "3000")]%string [] in
  let first := Demo.config (Demo.required ["PORT"]%string) in
  let second := Demo.config (Demo.required ["DATABASE_URL"]%string) in
  let w := (initEnv host first initial_world).2 in
  initEnv host second w
  = (Return (runtimeEnv w), logged [ConsoleWarn Msg.already_initialized] w).
Proof.
  intros host first second w. apply (initEnv_idempotent host second w).
  - reflexivity.
  - vm_compute. discriminate.
Defined.

Lemma getEnv_shallow_copy_witness :
  let host := Demo.host [("PORT", "3000")]%string [] in
  let config := Demo.config (Demo.required ["PORT"]%string) in
  let w := (initEnv host config initial_world).2 in
  exists l w',
    getEnv w = (Return l, w')
    /\ l <> runtimeEnv w'
    /\ heap w' !! l = Some {[ js "PORT" := js "3000" ]}
    /\ forall f, exists l2 w2,
         getEnv (mutate l f w') = (Return l2, w2)
         /\ heap w2 !! l2 = Some {[ js "PORT" := js "3000" ]}.
Proof.
  intros host config w.
  assert (Hrun0 : initEnv host config initial_world = (Return 1%nat, w)).
  { unfold w. rewrite (surjective_pairing (initEnv host config initial_world)) at 1.
    f_equal. }
  destruct (initEnv_returns_initialized host config initial_world 1%nat w Hrun0)
    as [Hi Hwf]; [by eexists|].
  destruct (getEnv_shallow_copy w Hi Hwf)
    as (l & w' & Hrun & _ & Hne & Hl & _ & _ & _ & Hf).
  exists l, w'. split_and!; [exact Hrun | exact Hne | exact Hl |].
  intros f. destruct (Hf f) as (_ & l2 & w2 & Hrun2 & _ & Hl2). eauto.
Defined.



(** * Further properties of the code *)

(** ** Trimming *)

Lemma trimStart_idemp (s : jsstring) : trimStart (trimStart s) = trimStart s.
Proof.
  destruct (trimStart s) as [|c rest] eqn:E; [done|].
  apply trimStart_nonspace. by eapply trimStart_head.
Qed.

Lemma trimEnd_idemp (s : jsstring) : trimEnd (trimEnd s) = trimEnd s.
Proof. unfold trimEnd. by rewrite rev_involutive, trimStart_idemp. Qed.

Lemma trimStart_app (s t : jsstring) :
  trimStart (s ++ t) = match trimStart s with [] => trimStart t | kept => kept ++ t end.
Proof.
  induction s as [|c s IH]; [done|]. cbn [app trimStart].
  destruct (is_trim_space c); done.
Qed.

Lemma trimEnd_snoc_space (s : jsstring) c :
  is_trim_space c = true -> trimEnd (s ++ [c]) = trimEnd s.
Proof. intros H. unfold trimEnd. rewrite rev_unit. cbn [trimStart]. by rewrite H. Qed.

Lemma trimEnd_nil_inv (s : jsstring) : trimEnd s = [] -> trimStart (rev s) = [].
Proof.
  unfold trimEnd. intros H. apply (f_equal (@rev N)) in H.
  by rewrite rev_involutive in H.
Qed.

Lemma trim_snoc_space (s : jsstring) c : is_trim_space c = true -> trim (s ++ [c]) = trim s.
Proof.
  intros H. unfold trim. rewrite trimStart_app.
  destruct (trimStart s) as [|d kept] eqn:E.
  - cbn [trimStart]. by rewrite H.
  - by apply trimEnd_snoc_space.
Qed.

Lemma trim_cons_space (s : jsstring) c : is_trim_space c = true -> trim (c :: s) = trim s.
Proof. intros H. unfold trim. cbn [trimStart]. by rewrite H. Qed.

Lemma trim_idemp (s : jsstring) : trim (trim s) = trim s.
Proof.
  unfold trim at 1. destruct (trim s) as [|c rest] eqn:E; [done|].
  rewrite trimStart_nonspace by (by eapply trim_head).
  rewrite <- E. unfold trim. apply trimEnd_idemp.
Qed.

(** What trimming keeps was there before. *)
Lemma trimStart_subseteq (s : jsstring) c : c ∈ trimStart s -> c ∈ s.
Proof.
  induction s as [|d s IH]; cbn [trimStart]; [done|].
  destruct (is_trim_space d); [|done]. intros H. right. by apply IH.
Qed.

Lemma trim_subseteq (s : jsstring) c : c ∈ trim s -> c ∈ s.
Proof.
  unfold trim, trimEnd. intros H. apply trimStart_subseteq.
  apply list_elem_of_In, in_rev, list_elem_of_In, trimStart_subseteq in H.
  by apply list_elem_of_In, in_rev, list_elem_of_In in H.
Qed.

(** X11. Whitespace around a line, and so the carriage return that a
    Windows line end leaves behind, changes nothing: the line contributes the
    same entry with or without it. *)
Theorem parse_line_ignores_outer_space (line : jsstring) (c : N) :
  is_trim_space c = true ->
  parse_line (line ++ [c]) = parse_line line
  /\ parse_line (c :: line) = parse_line line
  /\ add_line ∅ (line ++ [c_cr]) = add_line ∅ line.
Proof.
  intros H. unfold add_line, parse_line.
  rewrite (trim_snoc_space line c H), (trim_cons_space line c H).
  by rewrite (trim_snoc_space line c_cr) by done.
Qed.

Lemma parse_line_ignores_outer_space_witness :
  parse_line (js "  PORT=3000" ++ [c_cr]) = Some (js "PORT", js "3000")
  /\ parse_line (js "  PORT=3000") = Some (js "PORT", js "3000").
Proof.
  destruct (parse_line_ignores_outer_space (js "  PORT=3000") c_cr eq_refl) as (-> & _ & _).
  split; vm_compute; reflexivity.
Defined.

(** ** What the parser stores *)

Lemma index_of_take c (s : jsstring) i :
  FormatSpec.index_of c s = Some i -> c ∉ take i s.
Proof.
  revert i. induction s as [|d s IH]; intros i; cbn [FormatSpec.index_of]; [done|].
  destruct (N.eqb_spec d c) as [->|Hne].
  - intros [= <-]. cbn. apply not_elem_of_nil.
  - destruct (FormatSpec.index_of c s) as [j|]; [|done]. intros [= <-]. cbn [take].
    apply not_elem_of_cons. split; [done|]. by apply IH.
Qed.

Lemma slice_subseteq (s : jsstring) from to c : c ∈ slice s from to -> c ∈ s.
Proof.
  unfold slice. intros H. eapply subseteq_drop, subseteq_take, H.
Qed.

(** What a line that contributes an entry looks like. *)
Lemma parse_line_Some (line key value : jsstring) :
  parse_line line = Some (key, value) ->
  exists c t i,
    trim line = c :: t
    /\ is_trim_space c = false /\ c <> c_hash
    /\ FormatSpec.index_of c_eq (c :: t) = Some (S i)
    /\ forallb (fun d => negb (is_line_terminator d)) (drop (S (S i)) (c :: t)) = true
    /\ key = trim (take (S i) (c :: t))
    /\ value = (let v := trim (drop (S (S i)) (c :: t)) in
                if is_quoted v then slice v 1 (-1) else v).
Proof.
  unfold parse_line. destruct (trim line) as [|c t] eqn:Et; [done|].
  pose proof (trim_head _ _ _ Et) as Hc.
  cbn [startsWith orb]. rewrite andb_true_r.
  destruct (N.eqb_spec c_hash c) as [<-|Hh]; [done|].
  rewrite match_assignment_index.
  destruct (FormatSpec.index_of c_eq (c :: t)) as [[|i]|] eqn:Ei; try done.
  destruct (forallb _ _) eqn:Ef; [|done].
  intros [= <- <-]. exists c, t, i. split_and!; done.
Qed.

Lemma parse_line_stored (line key value : jsstring) :
  parse_line line = Some (key, value) ->
  key <> [] /\ trim key = key /\ (c_eq ∉ key) /\ head key <> Some c_hash
  /\ Forall (fun c => is_line_terminator c = false) value.
Proof.
  intros H. destruct (parse_line_Some _ _ _ H)
    as (c & t & i & Et & Hc & Hh & Ei & Ef & -> & ->).
  cbn [take]. destruct (trim_cons c (take i t) Hc) as [kept Hk].
  split_and!.
  - by rewrite Hk.
  - apply trim_idemp.
  - intros Hin. apply trim_subseteq in Hin. by apply (index_of_take _ _ _ Ei).
  - rewrite Hk. cbn. congruence.
  - cbv zeta. apply Forall_forall. intros d Hd.
    assert (Hin : d ∈ drop (S (S i)) (c :: t)).
    { destruct (is_quoted _); [apply slice_subseteq in Hd|]; by apply trim_subseteq. }
    rewrite forallb_forall in Ef. apply list_elem_of_In, Ef in Hin.
    by apply negb_true_iff.
Qed.

Lemma add_line_stored (env : dict) (line : jsstring) :
  map_Forall stored_entry env -> map_Forall stored_entry (add_line env line).
Proof.
  intros He. unfold add_line, set_prop.
  destruct (parse_line line) as [[key value]|] eqn:E; [|done].
  destruct (decide (key = proto_key)); [done|].
  apply map_Forall_insert_2; [|done].
  destruct (parse_line_stored _ _ _ E) as (? & ? & ? & ? & ?). by split_and!.
Qed.

(** X10. Whatever the text, every entry of the parsed file has a key that is
    not empty, is trimmed, holds no [=], does not start with [#] and is not
    [__proto__], and a value without any line terminator. *)
Theorem parseEnvContent_stored_entries (content key value : jsstring) :
  parseEnvContent content !! key = Some value -> stored_entry key value.
Proof.
  unfold parseEnvContent.
  assert (H : forall ls (env : dict),
             map_Forall stored_entry env -> map_Forall stored_entry (foldl add_line env ls)).
  { induction ls as [|line ls IH]; intros env He; [done|].
    cbn [foldl]. by apply IH, add_line_stored. }
  intros Hk. eapply (H _ ∅); [|exact Hk]. apply map_Forall_empty.
Qed.

Lemma parseEnvContent_stored_entries_witness :
  stored_entry (js "PORT") (js "3000").
Proof.
  apply (parseEnvContent_stored_entries (lines ["# c"; " PORT = 3000 "]%string)).
  vm_compute. reflexivity.
Defined.

(** ** Files one after the other *)

Lemma split_on_nonempty sep (s : jsstring) : split_on sep s <> [].
Proof.
  induction s as [|c s IH]; cbn [split_on]; [done|].
  destruct (c =? sep); [done|]. by destruct (split_on sep s).
Qed.

Lemma split_on_app sep (a b : jsstring) :
  split_on sep (a ++ sep :: b) = split_on sep a ++ split_on sep b.
Proof.
  induction a as [|c a IH]; cbn [app split_on].
  - by rewrite N.eqb_refl.
  - destruct (c =? sep); [by rewrite IH|]. rewrite IH.
    pose proof (split_on_nonempty sep a). by destruct (split_on sep a).
Qed.

Lemma add_line_union (env : dict) (line : jsstring) :
  add_line env line = add_line ∅ line ∪ env.
Proof.
  unfold add_line, set_prop. destruct (parse_line line) as [[key value]|].
  - destruct (decide (key = proto_key)).
    + by rewrite (left_id_L ∅ (∪)).
    + by rewrite insert_union_singleton_l, insert_empty.
  - by rewrite (left_id_L ∅ (∪)).
Qed.

Lemma foldl_add_line_union (ls : list jsstring) (env : dict) :
  foldl add_line env ls = foldl add_line ∅ ls ∪ env.
Proof.
  revert env. induction ls as [|line ls IH]; intros env; cbn [foldl].
  - by rewrite (left_id_L ∅ (∪)).
  - rewrite IH, (IH (add_line ∅ line)), (add_line_union env).
    by rewrite (assoc_L (∪)).
Qed.

(** X12. Merging the parsed contents of a second file over those of a first,
    as the loader does layer by layer, gives what parsing the two texts
    joined by a line feed gives. *)
Theorem parseEnvContent_concat (first second : jsstring) :
  object_assign (parseEnvContent first) (parseEnvContent second)
  = parseEnvContent (first ++ c_lf :: second).
Proof.
  rewrite object_assign_parsed. unfold parseEnvContent.
  rewrite split_on_app, foldl_app. symmetry. apply foldl_add_line_union.
Qed.

(** ** Quoting *)

Lemma trim_fixed (s : jsstring) c d :
  head s = Some c -> last s = Some d ->
  is_trim_space c = false -> is_trim_space d = false ->
  trim s = s.
Proof.
  intros Hh Hl Hc Hd. unfold trim.
  destruct s as [|c' s]; [done|]. injection Hh as ->.
  rewrite trimStart_nonspace by done. unfold trimEnd.
  destruct (c :: s) as [|e body _] using rev_ind; [done|].
  rewrite last_snoc in Hl. injection Hl as ->.
  rewrite rev_unit, trimStart_nonspace by done.
  cbn [rev]. by rewrite rev_involutive.
Qed.

Lemma index_of_app c (before after : jsstring) :
  c ∉ before -> FormatSpec.index_of c (before ++ c :: after) = Some (length before).
Proof.
  induction before as [|d before IH]; cbn [app FormatSpec.index_of length].
  - by rewrite N.eqb_refl.
  - intros [Hne Hnot]%not_elem_of_cons.
    destruct (N.eqb_spec d c) as [->|_]; [done|]. by rewrite IH.
Qed.

Lemma drop_after_key (before after : jsstring) c :
  drop (S (length before)) (before ++ c :: after) = after.
Proof. induction before as [|d before IH]; [done|]. exact IH. Qed.

(** X13. A stored entry can be written back: the line made of its key, [=]
    and its value between two double quotes, or two single quotes, yields
    that key with that value, character for character. *)
Theorem quoted_line_round_trip (key value : jsstring) (q : N) (env : dict) :
  stored_entry key value ->
  q = c_dquote \/ q = c_squote ->
  parse_line (key ++ c_eq :: q :: value ++ [q]) = Some (key, value)
  /\ add_line env (key ++ c_eq :: q :: value ++ [q]) = <[key := value]> env.
Proof.
  intros (Hne & Htrim & Heq & Hhash & Hproto & Hval) Hq.
  assert (Hqs : is_trim_space q = false) by (by destruct Hq as [->| ->]).
  assert (Hqt : is_line_terminator q = false) by (by destruct Hq as [->| ->]).
  assert (Hline : parse_line (key ++ c_eq :: q :: value ++ [q]) = Some (key, value)).
  { unfold parse_line.
    pose proof (index_of_app c_eq key (q :: value ++ [q]) Heq) as Hi.
    destruct key as [|c key']; [done|].
    assert (Hc : is_trim_space c = false) by (by eapply trim_head).
    rewrite (trim_fixed ((c :: key') ++ c_eq :: q :: value ++ [q]) c q); try done.
    2: { change (c_eq :: q :: value ++ [q]) with ((c_eq :: q :: value) ++ [q]).
         rewrite app_assoc. apply last_snoc. }
    cbn [app startsWith orb]. rewrite andb_true_r.
    destruct (N.eqb_spec c_hash c) as [<-|_]; [done|].
    rewrite match_assignment_index. cbn [app] in Hi. rewrite Hi. cbn [length].
    cbn [drop take]. rewrite drop_after_key, take_app_length.
    assert (Hterm : forallb (fun d => negb (is_line_terminator d)) (q :: value ++ [q]) = true).
    { apply forallb_forall. intros d Hd%list_elem_of_In. apply negb_true_iff.
      rewrite Forall_forall in Hval.
      apply elem_of_cons in Hd as [->|Hd]; [done|].
      apply elem_of_app in Hd as [Hd|Hd]; [by apply Hval|].
      by apply list_elem_of_singleton in Hd as ->. }
    rewrite Hterm. cbv beta iota zeta. rewrite Htrim.
    rewrite (trim_fixed (q :: value ++ [q]) q q); try done.
    2: { rewrite app_comm_cons. apply last_snoc. }
    assert (Hquoted : is_quoted (q :: value ++ [q]) = true).
    { unfold is_quoted. rewrite !endsWith_last, app_comm_cons, last_snoc.
      cbn [startsWith]. destruct Hq as [->| ->]; done. }
    rewrite Hquoted, slice_inner. cbn [tail]. by rewrite removelast_last. }
  split; [exact Hline|]. unfold add_line, set_prop. rewrite Hline.
  by rewrite decide_False.
Qed.

Lemma quoted_line_round_trip_witness :
  parse_line (js "GREETING=" ++ [c_dquote] ++ js " hello = 'world' " ++ [c_dquote])
  = Some (js "GREETING", js " hello = 'world' ").
Proof.
  apply (quoted_line_round_trip (js "GREETING") (js " hello = 'world' ") c_dquote ∅).
  - split_and!; try done.
    + compute_done.
    + repeat constructor.
  - by left.
Defined.

(** ** The cache, beyond the first initialization *)

Section CacheFacts.
Context {Val : Type}.
Implicit Types (w : World Val) (host : Host) (config : EnvGuardConfig Val).

(** X1. When the schema accepts the merged mapping, [initEnv] stores the
    validated object as a new object of the heap, points [runtimeEnv] to it,
    sets the flag and returns that reference; every object that was there
    stays as it was; the success line is printed unless [NODE_ENV] is
    production. This is also what happens to an initialized cache in test
    mode. *)
Theorem initEnv_success host config w envVars w1 validated :
  isInitialized w && negb (node_env_is host (js "test")) = false ->
  loadEnvVars host (envPath config) w = (Return envVars, w1) ->
  parse (schema config) (process_env host ∪ envVars) = ParseOk validated ->
  exists l w',
    initEnv host config w = (Return l, w')
    /\ heap w !! l = None
    /\ heap w' = <[l := validated]> (heap w)
    /\ runtimeEnv w' = l
    /\ isInitialized w' = true
    /\ cached w' = validated
    /\ trace w' = trace w1 ++ SchemaParse (process_env host ∪ envVars)
                   :: (if node_env_is host (js "production")
                       then [] else [ConsoleLog Msg.validated]).
Proof.
  intros Hg Hl Hp. rewrite (initEnv_validates _ _ _ _ _ Hg Hl). cbv zeta. rewrite Hp.
  destruct (loadEnvVars_same_cache _ _ _ _ _ Hl) as (Hh & _ & _).
  eexists _, _. split; [reflexivity|]. cbn [heap runtimeEnv isInitialized trace logged].
  rewrite Hh. split_and!; try done.
  - apply fresh_not_allocated.
  - unfold cached, deref. cbn [heap runtimeEnv]. by rewrite lookup_insert_eq.
  - by rewrite <- app_assoc.
Qed.

(** X2. In test mode an initialized cache is replaced: after a successful
    second [initEnv] the cache holds the newly validated object, while the
    object cached before is still in the heap with its properties, so that a
    caller holding the first result keeps seeing the first values. *)
Theorem initEnv_test_mode_replaces host config w envVars w1 validated :
  isInitialized w = true ->
  NODE_ENV host = Some (js "test") ->
  is_Some (heap w !! runtimeEnv w) ->
  loadEnvVars host (envPath config) w = (Return envVars, w1) ->
  parse (schema config) (process_env host ∪ envVars) = ParseOk validated ->
  exists l w',
    initEnv host config w = (Return l, w')
    /\ l <> runtimeEnv w
    /\ runtimeEnv w' = l
    /\ cached w' = validated
    /\ deref w' (runtimeEnv w) = cached w.
Proof.
  intros Hi Ht [old Hold] Hl Hp.
  assert (Hg : isInitialized w && negb (node_env_is host (js "test")) = false).
  { unfold node_env_is. rewrite bool_decide_eq_true_2 by done. apply andb_false_r. }
  rewrite (initEnv_validates _ _ _ _ _ Hg Hl). cbv zeta. rewrite Hp.
  destruct (loadEnvVars_same_cache _ _ _ _ _ Hl) as (Hh & _ & _). rewrite Hh.
  pose proof (fresh_not_allocated w) as Hfresh.
  assert (Hne : fresh (dom (heap w)) <> runtimeEnv w) by congruence.
  eexists _, _. split; [reflexivity|]. unfold cached, deref.
  cbn [heap runtimeEnv]. rewrite lookup_insert_eq, lookup_insert_ne by done.
  by split_and!.
Qed.


(** X4. [createEnv] fails exactly as [initEnv] fails, without reading the
    cache; when [initEnv] returns, [createEnv] returns a new object that is
    not the cached one and has the cached properties. *)
Theorem createEnv_composes host config w :
  is_Some (heap w !! runtimeEnv w) ->
  match initEnv host config w with
  | (Return _, w1) =>
      exists l w2,
        createEnv host config w = (Return l, w2)
        /\ heap w1 !! l = None
        /\ l <> runtimeEnv w2
        /\ heap w2 = <[l := cached w1]> (heap w1)
        /\ cached w2 = cached w1
        /\ trace w2 = trace w1
  | (Throw e, w1) => createEnv host config w = (Throw e, w1)
  | (Exit status, w1) => createEnv host config w = (Exit status, w1)
  end.
Proof.
  intros Hwf. unfold createEnv, bind.
  destruct (initEnv host config w) as [[l0|e|st] w1] eqn:Hrun; try done.
  destruct (initEnv_returns_initialized _ _ _ _ _ Hrun Hwf) as [Hi [snapshot Hs]].
  rewrite (getEnv_initialized _ Hi). unfold alloc.
  pose proof (fresh_not_allocated w1) as Hfresh.
  assert (Hne : fresh (dom (heap w1)) <> runtimeEnv w1) by congruence.
  eexists _, _. split; [reflexivity|]. cbn [heap runtimeEnv trace]. split_and!; try done.
  unfold cached, deref. cbn [heap runtimeEnv]. by rewrite lookup_insert_ne.
Qed.


End CacheFacts.

(** ** Failures before and after validation *)

Section FailureFacts.
Context {Val : Type}.
Implicit Types (w : World Val) (host : Host) (config : EnvGuardConfig Val).






(** X7. An [envPath] at which a directory stands makes [initEnv] throw the
    file-system error, outside the [try]: the schema is not asked, neither
    [onError] nor the reporter runs, and the cache is untouched. *)
Theorem initEnv_envPath_directory host config w p :
  isInitialized w && negb (node_env_is host (js "test")) = false ->
  envPath config = Some p -> p <> [] ->
  fs host p = Some Directory ->
  initEnv host config w
  = (Throw (FsError (js "EISDIR") p), logged [FsExists p; FsRead p] w).
Proof.
  intros Hg Hp Hne Hf. unfold initEnv, bind at 1, get_world. rewrite Hg.
  unfold bind at 1. rewrite Hp. unfold loadEnvVars, custom_path_exists.
  destruct p as [|c p]; [done|].
  unfold existsSync, parseEnvFile, readFileSync, bind, emit, ret, throw. cbn.
  rewrite Hf. cbn. unfold logged. cbn. by rewrite <- app_assoc.
Qed.

(** X8. What [parse] throws that is not a [ZodError] goes to the caller as it
    is: [onError] is not called and nothing is reported. *)
Theorem initEnv_foreign_error host config w envVars w1 e :
  isInitialized w && negb (node_env_is host (js "test")) = false ->
  loadEnvVars host (envPath config) w = (Return envVars, w1) ->
  parse (schema config) (process_env host ∪ envVars) = ParseThrow e ->
  (forall zerr, e <> ZodErr zerr) ->
  initEnv host config w
  = (Throw e, logged [SchemaParse (process_env host ∪ envVars)] w1).
Proof.
  intros Hg Hl Hp He. rewrite (initEnv_validates _ _ _ _ _ Hg Hl). cbv zeta. rewrite Hp.
  destruct e as [msg|zerr|errno p|tag]; try done. by destruct (He zerr).
Qed.


End FailureFacts.

(** ** What no sequence of calls undoes *)

Section StepFacts.
Context {Val : Type}.
Implicit Types (w : World Val) (host : Host) (config : EnvGuardConfig Val).

(** [initEnv] either only adds to the trace, or stores one new object and
    makes it the cache. *)
Lemma initEnv_effect host config w :
  (exists evs, (initEnv host config w).2 = logged evs w)
  \/ (exists validated evs,
        let l := fresh (dom (heap w)) in
        initEnv host config w
        = (Return l, {| heap := <[l := validated]> (heap w); runtimeEnv := l;
                        isInitialized := true; trace := trace w ++ evs |})).
Proof.
  destruct (isInitialized w && negb (node_env_is host (js "test"))) eqn:Hg.
  { left. rewrite (initEnv_guarded _ _ _ Hg). eauto. }
  destruct (loadEnvVars host (envPath config) w) as [o1 w1] eqn:Hl.
  destruct (quiet_loadEnvVars host (envPath config) w) as [evs1 Hq].
  rewrite Hl in Hq. cbn [snd] in Hq. subst w1.
  destruct o1 as [envVars|e|st].
  - rewrite (initEnv_validates _ _ _ _ _ Hg Hl). cbv zeta.
    destruct (parse (schema config) (process_env host ∪ envVars)) as [validated|e].
    + right. exists validated. eexists. cbn [heap logged trace].
      rewrite <- !app_assoc. reflexivity.
    + left. destruct e as [msg|zerr|errno p|tag];
        try (cbn [snd]; rewrite logged_logged; eauto).
      destruct (onError config); [|destruct (tolerated host (allowMissingInDev config))];
        cbn [snd]; rewrite !logged_logged; eauto.
  - left. destruct (initEnv_load_fails _ config _ _ _ Hg Hl) as (o' & -> & _); [done|]. eauto.
  - left. destruct (initEnv_load_fails _ config _ _ _ Hg Hl) as (o' & -> & _); [done|]. eauto.
Qed.

Lemma getEnv_effect w :
  (getEnv w).2 = w
  \/ (isInitialized w = true
      /\ (getEnv w).2 = {| heap := <[fresh (dom (heap w)) := cached w]> (heap w);
                           runtimeEnv := runtimeEnv w; isInitialized := isInitialized w;
                           trace := trace w |}).
Proof.
  unfold getEnv, bind, get_world, alloc, throw.
  destruct (isInitialized w) eqn:E; cbn [negb snd]; [right|left]; [|done].
  split; [done|]. by rewrite E.
Qed.

(** What every operation and every change of a held object keeps. *)
Lemma step_keeps w w' :
  step w w' ->
  dom (heap w) ⊆ dom (heap w')
  /\ (isInitialized w = true -> isInitialized w' = true)
  /\ (is_Some (heap w !! runtimeEnv w) -> is_Some (heap w' !! runtimeEnv w')).
Proof.
  assert (Hinit : forall host config w0,
            dom (heap w0) ⊆ dom (heap (initEnv host config w0).2)
            /\ (isInitialized w0 = true -> isInitialized (initEnv host config w0).2 = true)
            /\ (is_Some (heap w0 !! runtimeEnv w0) ->
                is_Some (heap (initEnv host config w0).2
                         !! runtimeEnv (initEnv host config w0).2))).
  { intros host config w0. destruct (initEnv_effect host config w0)
      as [[evs ->]|(validated & evs & ->)]; [done|].
    cbn [snd heap runtimeEnv isInitialized]. split_and!; [|done|].
    - rewrite dom_insert_L. apply union_subseteq_r.
    - intros _. rewrite lookup_insert_eq. eauto. }
  assert (Hget : forall w0,
            dom (heap w0) ⊆ dom (heap (getEnv w0).2)
            /\ (isInitialized w0 = true -> isInitialized (getEnv w0).2 = true)
            /\ (is_Some (heap w0 !! runtimeEnv w0) ->
                is_Some (heap (getEnv w0).2 !! runtimeEnv (getEnv w0).2))).
  { intros w0. destruct (getEnv_effect w0) as [->|[Hi ->]]; [done|].
    cbn [heap runtimeEnv isInitialized]. split_and!; [|done|].
    - rewrite dom_insert_L. apply union_subseteq_r.
    - intros Hwf. rewrite lookup_insert_ne; [done|].
      intros E. rewrite <- E, fresh_not_allocated in Hwf. by destruct Hwf. }
  intros [host config| |host config|l f].
  - apply Hinit.
  - apply Hget.
  - unfold createEnv, bind.
    destruct (Hinit host config w) as (H1 & H2 & H3).
    destruct (initEnv host config w) as [[l0|e|st] w1]; [|done..].
    cbn [snd] in *. destruct (Hget w1) as (G1 & G2 & G3).
    split_and!; [by trans (dom (heap w1))|auto..].
  - unfold mutate. cbn [heap runtimeEnv isInitialized]. split_and!; [|done|].
    + by rewrite dom_alter.
    + intros [o Ho]. destruct (decide (l = runtimeEnv w)) as [->|Hne].
      * rewrite lookup_alter_eq, Ho. cbn. eauto.
      * rewrite lookup_alter_ne by done. eauto.
Qed.

(** X14. Whatever a program does with the module, in any order: no object is
    ever removed from the heap, a set flag is never unset, and [runtimeEnv]
    keeps pointing to an object of the heap. *)
Theorem steps_keep w w' :
  rtc step w w' ->
  dom (heap w) ⊆ dom (heap w')
  /\ (isInitialized w = true -> isInitialized w' = true)
  /\ (is_Some (heap w !! runtimeEnv w) -> is_Some (heap w' !! runtimeEnv w')).
Proof.
  induction 1 as [w|w w1 w2 Hstep _ (IH1 & IH2 & IH3)]; [done|].
  destruct (step_keeps _ _ Hstep) as (H1 & H2 & H3).
  split_and!; [by trans (dom (heap w1))|auto..].
Qed.

(** X15. The three operations never change or drop an object that is in the
    heap: whatever a caller holds keeps its properties across [initEnv],
    [getEnv] and [createEnv], whatever their outcome. *)
Theorem operations_keep_objects host config w :
  heap w ⊆ heap (initEnv host config w).2
  /\ heap w ⊆ heap (getEnv w).2
  /\ heap w ⊆ heap (createEnv host config w).2.
Proof.
  assert (Hinit : forall w0, heap w0 ⊆ heap (initEnv host config w0).2).
  { intros w0. destruct (initEnv_effect host config w0)
      as [[evs ->]|(validated & evs & ->)]; [done|].
    cbn [snd heap]. apply insert_subseteq, fresh_not_allocated. }
  assert (Hget : forall w0, heap w0 ⊆ heap (getEnv w0).2).
  { intros w0. destruct (getEnv_effect w0) as [->|[_ ->]]; [done|].
    cbn [heap]. apply insert_subseteq, fresh_not_allocated. }
  split_and!; [apply Hinit | apply Hget |].
  unfold createEnv, bind. pose proof (Hinit w) as H1.
  destruct (initEnv host config w) as [[l0|e|st] w1]; [|done..].
  cbn [snd] in *. by trans (heap w1).
Qed.

End StepFacts.

(** ** The order of the layers *)

Section ProbeFacts.
Context {Val : Type}.
Implicit Types (w : World Val) (host : Host).

Lemma load_layer_probe host env file w :
  fs host (path_join host (cwd host) file) <> Some Directory ->
  load_layer host (cwd host) env file w
  = (Return (LoaderSpec.layer host file ∪ env), logged (probe host file) w).
Proof.
  intros Hd. unfold load_layer, LoaderSpec.layer, probe, existsSync.
  unfold bind at 1. unfold bind at 1. rewrite emit_logged. cbn [ret].
  destruct (fs host (path_join host (cwd host) file)) as [[content|]|] eqn:Hf; [|done|].
  - rewrite bool_decide_eq_true_2 by eauto.
    unfold bind. rewrite (parseEnvFile_reads _ _ _ _ Hf), logged_logged.
    cbn [ret]. by rewrite object_assign_parsed.
  - rewrite bool_decide_eq_false_2 by (by intros [? ?]).
    cbn [ret]. by rewrite (left_id_L ∅ (∪)).
Qed.

Lemma load_layers_probes host files env w :
  (forall file, file ∈ files -> fs host (path_join host (cwd host) file) <> Some Directory) ->
  (load_layers host (cwd host) env files w).2
  = logged (concat (probe host <$> files)) w.
Proof.
  revert env w. induction files as [|file files IH]; intros env w Hd.
  - cbn. by rewrite logged_nil.
  - cbn [load_layers fmap list_fmap concat]. unfold bind.
    rewrite load_layer_probe by (apply Hd; left).
    rewrite (surjective_pairing (load_layers _ _ _ _ _)), IH.
    + destruct (load_layers _ _ _ _ _).1; cbn [snd]; by rewrite logged_logged.
    + intros f Hf. apply Hd. by right.
Qed.

(** X19. Without an explicit path, the loader asks for [.env],
    [.env.<mode>], [.env.local] and [.env.<mode>.local] under the working
    directory, in that order, reads each one right after finding it and reads
    nothing that is not there; it does nothing else to the outside. *)
Theorem loadEnvVars_probes_in_order host w :
  (forall file, file ∈ envFiles (resolve_mode host) ->
     fs host (path_join host (cwd host) file) <> Some Directory) ->
  trace (loadEnvVars host None w).2
  = trace w ++ probe host (js ".env")
            ++ probe host (js ".env." ++ resolve_mode host)
            ++ probe host (js ".env.local")
            ++ probe host (js ".env." ++ resolve_mode host ++ js ".local").
Proof.
  intros Hd. unfold loadEnvVars, custom_path_exists.
  change (bind (ret false) ?k w) with (k false w). cbv beta iota zeta.
  rewrite (load_layers_probes host _ ∅ w Hd).
  unfold envFiles. cbn [fmap list_fmap concat logged trace]. by rewrite app_nil_r.
Qed.

End ProbeFacts.

(** ** The guard on joined shapes *)

Section GuardMore.
Context {Field Schema : Type} (z_object : list (jsstring * Field) -> Schema).

Lemma check_keys_app (keys1 keys2 : list jsstring) :
  check_keys (keys1 ++ keys2)
  = match check_keys keys1 with Some e => Some e | None => check_keys keys2 end.
Proof.
  induction keys1 as [|key keys1 IH]; cbn [app check_keys]; [done|].
  by destruct (negb (startsWith NEXT_PUBLIC_ key)).
Qed.

(** X18. For a shape made of two parts, [createClientEnv] looks at the first
    part's fields before the second's: it throws what it throws for the
    first part alone when that part is refused, otherwise what it throws for
    the second alone, and it builds the schema only when both parts are
    accepted. *)
Theorem createClientEnv_app (shape1 shape2 : list (jsstring * Field)) :
  createClientEnv Field Schema z_object (shape1 ++ shape2)
  = match createClientEnv Field Schema z_object shape1,
          createClientEnv Field Schema z_object shape2 with
    | Throw e, _ => Throw e
    | _, Throw e => Throw e
    | _, _ => Return (z_object (shape1 ++ shape2))
    end.
Proof.
  unfold createClientEnv. rewrite fmap_app, check_keys_app.
  destruct (check_keys (shape1.*1)); [done|]. by destruct (check_keys (shape2.*1)).
Qed.

End GuardMore.

(** ** The build-tool hook *)

Section PluginFacts.
Context {Setting WebpackConfig Context : Type}.
Implicit Types (nextConfig : Plugin.NextConfig Setting WebpackConfig Context).

(** X16. The returned configuration keeps every setting of the given one;
    its [env] holds the marker with the value true, over any value the given
    [env] had for it, and every other entry of the given [env] unchanged;
    its [webpack] is a function that returns what the given [webpack]
    function returns, or the bundler configuration as it came when the given
    configuration has no such function. The options play no part. *)
Theorem withEnvGuard_passes_through nextConfig options :
  let result := Plugin.withEnvGuard _ _ _ (Some nextConfig) options in
  Plugin.settings _ _ _ result = Plugin.settings _ _ _ nextConfig
  /\ (exists e, Plugin.env _ _ _ result = Some e
                /\ e !! Plugin.marker = Some (js "true")
                /\ forall key, key <> Plugin.marker ->
                     e !! key = default ∅ (Plugin.env _ _ _ nextConfig) !! key)
  /\ (forall config context,
        Plugin.run_webpack _ _ _ result config context
        = Some (default config (Plugin.run_webpack _ _ _ nextConfig config context))).
Proof.
  intros result. split; [done|]. split.
  - eexists. split; [reflexivity|]. split.
    + apply lookup_insert_eq.
    + intros key Hne. by rewrite lookup_insert_ne.
  - intros config context. unfold Plugin.run_webpack, result. cbn.
    unfold Plugin.wrapped_webpack.
    by destruct (Plugin.webpack _ _ _ nextConfig) as [[f|v]|].
Qed.

(** X17. Wrapping twice is wrapping once: the configuration obtained from
    an already wrapped one has the same settings, the same [env] and a
    [webpack] function with the same results. *)
Theorem withEnvGuard_idempotent (given : option (Plugin.NextConfig Setting WebpackConfig Context))
    options1 options2 :
  let once := Plugin.withEnvGuard _ _ _ given options1 in
  let twice := Plugin.withEnvGuard _ _ _ (Some once) options2 in
  Plugin.settings _ _ _ twice = Plugin.settings _ _ _ once
  /\ Plugin.env _ _ _ twice = Plugin.env _ _ _ once
  /\ (forall config context,
        Plugin.run_webpack _ _ _ twice config context
        = Plugin.run_webpack _ _ _ once config context).
Proof.
  intros once twice. split; [done|]. split; [|done].
  unfold twice, once, Plugin.withEnvGuard. cbn. by rewrite insert_insert_eq.
Qed.

End PluginFacts.

(** ** Concrete runs of the further properties *)

Lemma loader_of_empty_host (vars : list (string * string)) (config : EnvGuardConfig jsstring)
    (w : World jsstring) :
  envPath config = None ->
  loadEnvVars (Demo.host vars []) (envPath config) w
  = (Return ∅, (loadEnvVars (Demo.host vars []) None w).2).
Proof.
  intros ->. rewrite (surjective_pairing (loadEnvVars _ _ _)) at 1. f_equal.
Qed.

Lemma initEnv_success_witness :
  let host := Demo.host [("PORT", "3000")]%string [] in
  let config := Demo.config (Demo.required ["PORT"]%string) in
  exists l w',
    initEnv host config initial_world = (Return l, w')
    /\ isInitialized w' = true
    /\ cached w' = {[ js "PORT" := js "3000" ]}.
Proof.
  intros host config.
  destruct (initEnv_success host config initial_world ∅ _ {[ js "PORT" := js "3000" ]}
              eq_refl (loader_of_empty_host _ config _ eq_refl))
    as (l & w' & Hrun & _ & _ & _ & Hi & Hc & _).
  - vm_compute. reflexivity.
  - eauto.
Defined.

Lemma initEnv_test_mode_replaces_witness :
  let first := Demo.host [("NODE_ENV", "test"); ("PORT", "1")]%string [] in
  let second := Demo.host [("NODE_ENV", "test"); ("PORT", "2")]%string [] in
  let config := Demo.config (Demo.required ["PORT"]%string) in
  let w := (initEnv first config initial_world).2 in
  exists l w',
    initEnv second config w = (Return l, w')
    /\ cached w' = {[ js "PORT" := js "2" ]}
    /\ deref w' (runtimeEnv w) = {[ js "PORT" := js "1" ]}.
Proof.
  intros first second config w.
  destruct (initEnv_test_mode_replaces second config w ∅ _ {[ js "PORT" := js "2" ]}
              eq_refl eq_refl (ex_intro _ _ eq_refl)
              (loader_of_empty_host _ config _ eq_refl))
    as (l & w' & Hrun & _ & _ & Hc & Hold).
  - vm_compute. reflexivity.
  - exists l, w'. split_and!; [exact Hrun | exact Hc |]. rewrite Hold.
    vm_compute. reflexivity.
Defined.


Lemma createEnv_composes_witness :
  let host := Demo.host [("PORT", "3000")]%string [] in
  let config := Demo.config (Demo.required ["PORT"]%string) in
  exists l w2,
    createEnv host config initial_world = (Return l, w2)
    /\ l <> runtimeEnv w2
    /\ heap w2 !! l = Some {[ js "PORT" := js "3000" ]}.
Proof.
  intros host config.
  set (w1 := (initEnv host config initial_world).2).
  assert (Hrun : initEnv host config initial_world = (Return 1%nat, w1)).
  { unfold w1. rewrite (surjective_pairing (initEnv host config initial_world)) at 1.
    f_equal. }
  pose proof (createEnv_composes host config initial_world (ex_intro _ _ eq_refl)) as H.
  rewrite Hrun in H. destruct H as (l & w2 & Hc & _ & Hne & Hheap & _).
  exists l, w2. split_and!; [exact Hc | exact Hne |].
  rewrite Hheap, lookup_insert_eq. f_equal.
Defined.

Lemma initEnv_envPath_directory_witness :
  let host := Demo2.with_directory "/etc/conf.d" (Demo.host [] []) in
  let config := Demo2.config_at "/etc/conf.d" (Demo.required ["PORT"]%string) in
  initEnv host config initial_world
  = (Throw (FsError (js "EISDIR") (js "/etc/conf.d")),
     logged [FsExists (js "/etc/conf.d"); FsRead (js "/etc/conf.d")] initial_world).
Proof.
  intros host config.
  apply (initEnv_envPath_directory host config initial_world (js "/etc/conf.d"));
    try reflexivity.
  discriminate.
Defined.

Lemma initEnv_foreign_error_witness :
  let host := Demo.host [] [] in
  let config := Demo.config_with_handler Demo2.broken in
  exists w', initEnv host config initial_world = (Throw (Foreign 7), w')
             /\ forall zerr, OnErrorCall zerr ∉ trace w'.
Proof.
  intros host config. eexists. split.
  - apply (initEnv_foreign_error host config initial_world ∅ _ (Foreign 7) eq_refl
             (loader_of_empty_host _ config _ eq_refl) eq_refl).
    intros zerr. discriminate.
  - intros zerr Hin. vm_compute in Hin.
    repeat (apply elem_of_cons in Hin as [Hin|Hin]; [discriminate|]).
    by apply elem_of_nil in Hin.
Defined.


Lemma steps_keep_witness :
  let host := Demo.host [("PORT", "3000")]%string [] in
  let config := Demo.config (Demo.required ["PORT"]%string) in
  let failing := Demo.config_with_handler (Demo.required ["DATABASE_URL"]%string) in
  let w1 := (initEnv host config initial_world).2 in
  let w2 := (createEnv host failing w1).2 in
  let w3 := mutate 1%nat (fun o => set_prop o (js "PORT") (js "0")) w2 in
  let w4 := (getEnv w3).2 in
  isInitialized w4 = true /\ is_Some (heap w4 !! runtimeEnv w4).
Proof.
  intros host config failing w1 w2 w3 w4.
  destruct (steps_keep w1 w4) as (_ & Hi & Hwf).
  - eapply rtc_l; [apply (step_createEnv w1 host failing)|].
    eapply rtc_l; [apply (step_mutate w2 1%nat (fun o => set_prop o (js "PORT") (js "0")))|].
    eapply rtc_l; [apply (step_getEnv w3)|]. apply rtc_refl.
  - split; [by apply Hi|]. apply Hwf. by eexists.
Defined.

Lemma loadEnvVars_probes_in_order_witness :
  let host := Demo.host [("NODE_ENV", "production")]%string
                [ ("/app/.env"%string, lines ["PORT=3000"]%string);
                  ("/app/.env.local"%string, lines ["PORT=8080"]%string) ] in
  trace (loadEnvVars (Val:=jsstring) host None initial_world).2
  = [ FsExists (js "/app/.env"); FsRead (js "/app/.env");
      FsExists (js "/app/.env.production");
      FsExists (js "/app/.env.local"); FsRead (js "/app/.env.local");
      FsExists (js "/app/.env.production.local") ].
Proof.
  intros host.
  rewrite (loadEnvVars_probes_in_order host (initial_world (Val:=jsstring))).
  - vm_compute. reflexivity.
  - intros file _. unfold host, Demo.host. cbn [fs].
    induction [("/app/.env"%string, lines ["PORT=3000"]%string);
               ("/app/.env.local"%string, lines ["PORT=8080"]%string)]
      as [|[name text] files IH]; cbn [Demo.lookup_file]; [done|].
    by destruct (decide (_ = js name)).
Defined.

